(** * Ayla lead funnel (streamlit_app.py): model and verification

    The script is re-executed from top to bottom on every interaction; what
    survives between two executions is [st.session_state] and the spreadsheet
    on disk.  The model follows that shape: Python values and the string
    primitives the script calls ([Py]), the validators and the normaliser, the
    spreadsheet append ([salvar_lead]) and, on top of them, one execution of
    the script body as a state-and-exception computation over a [world].

    Python [str] is a sequence of Unicode code points, modelled as [list Z].
    Dictionary keys of the script are ASCII literals and are kept as Rocq
    strings.  Rendering calls ([st.markdown], [st.text]) draw exactly what the
    neighbouring [messages.append] records, so the transcript stands for both.

    What lies outside the repository is kept abstract or stated as an
    assumption where it is used: the interpreter's Unicode tables and its
    limit on integer conversions are a parameter ([Py.unicode_data]); so is
    what the spreadsheet library does with a sheet ([excel]: which texts it
    can write, what a failed write leaves behind, what comes back when a
    written sheet is read); the clock is given by its readings, in
    microseconds.  Failures of the operating system (no permission, disk
    full) and the size limits of a sheet (about a million rows) are not
    modelled: a write fails only when the engine refuses a text. *)

From Stdlib Require Import Decimal DecimalFacts DecimalZ ZArith List String
  Ascii Bool Lia.
Import ListNotations.
Local Open Scope Z_scope.

(** ** Python values and string primitives *)

Module Py.

Definition char := Z.
Definition str := list char.

(** Source literals are written as UTF-8 text; [u] decodes them to code points. *)
Fixpoint utf8_decode (bs : list Z) (need : nat) (acc : Z) : str :=
  match bs with
  | [] => []
  | b :: r =>
      match need with
      | O => if b <? 128 then b :: utf8_decode r 0 0
             else if b <? 224 then utf8_decode r 1 (b - 192)
             else if b <? 240 then utf8_decode r 2 (b - 224)
             else utf8_decode r 3 (b - 240)
      | S O => (acc * 64 + (b - 128)) :: utf8_decode r 0 0
      | S n => utf8_decode r n (acc * 64 + (b - 128))
      end
  end.

Definition bytes_of (s : string) : list Z :=
  map (fun a => Z.of_N (N_of_ascii a)) (list_ascii_of_string s).

Definition u (s : string) : str := utf8_decode (bytes_of s) 0 0.

Fixpoint str_eqb (a b : str) : bool :=
  match a, b with
  | [], [] => true
  | x :: a', y :: b' => (x =? y) && str_eqb a' b'
  | _, _ => false
  end.

(** [x in {a, b, ...}] for a set literal of strings. *)
Definition str_in (x : str) (l : list str) : bool := existsb (str_eqb x) l.

(** Truthiness of a string: empty is falsy. *)
Definition truthy (s : str) : bool :=
  match s with [] => false | _ => true end.

(** [Py_UNICODE_ISSPACE]: the code points [str.strip()], [str.split()] and the
    regex class [\s] treat as whitespace. *)
Definition isspace (c : char) : bool :=
  ((9 <=? c) && (c <=? 13)) || ((28 <=? c) && (c <=? 32))
  || (c =? 133) || (c =? 160) || (c =? 5760)
  || ((8192 <=? c) && (c <=? 8202))
  || (c =? 8232) || (c =? 8233) || (c =? 8239) || (c =? 8287) || (c =? 12288).

(** [Py_ISSPACE]: the ASCII-only test used inside [int()]. *)
Definition isspace_ascii (c : char) : bool :=
  ((9 <=? c) && (c <=? 13)) || (c =? 32).

Fixpoint lstrip (s : str) : str :=
  match s with
  | c :: r => if isspace c then lstrip r else s
  | [] => []
  end.

Definition rstrip (s : str) : str := rev (lstrip (rev s)).

(** [s.strip()] *)
Definition strip (s : str) : str := rstrip (lstrip s).

(** [s.split()]: maximal runs of non-whitespace; [tok] is the run being read,
    most recent character first. *)
Fixpoint split_from (s : str) (tok : str) : list str :=
  match s with
  | [] => match tok with [] => [] | _ => [rev tok] end
  | c :: r =>
      if isspace c
      then match tok with [] => split_from r [] | _ => rev tok :: split_from r [] end
      else split_from r (c :: tok)
  end.

Definition split (s : str) : list str := split_from s [].

(** [s.replace(a, b)] for a one-character [a]. *)
Definition replace_char (a : char) (b : str) (s : str) : str :=
  flat_map (fun c => if c =? a then b else [c]) s.

(** The part of the Python runtime the script depends on: its Unicode
    character database and its limit on integer conversions.  They belong to
    the interpreter, not to the repository, so they are a parameter of the
    model:
    - [todecimal c] is [Py_UNICODE_TODECIMAL] (the value of a character of
      category Nd, which is what [\d] and [int()] accept);
    - [isdigit_char c] is [Py_UNICODE_ISDIGIT] (what [str.isdigit] tests);
    - [lower s] is [str.lower] (a string function: the final-sigma rule looks
      at neighbouring characters, and some characters lower to two);
    - [int_max_str_digits] is [sys.get_int_max_str_digits()]: the number of
      digits beyond which [int(s)] and [str(n)] raise [ValueError]; 4300
      unless configured otherwise, 0 when the limit is switched off. *)
Record unicode_data := {
  todecimal : char -> option Z;
  isdigit_char : char -> bool;
  lower : str -> str;
  int_max_str_digits : Z
}.

Definition is_ascii_digit (c : char) : bool := (48 <=? c) && (c <=? 57).

Definition ascii_lowercase_safe (c : char) : bool :=
  (0 <=? c) && (c <? 128) && negb ((65 <=? c) && (c <=? 90)).

(** What the proofs use of a database; CPython's satisfies all of it: the
    ASCII digits are decimals with their usual values, hence digits, and
    lower-casing leaves ASCII text without capital letters as it is. *)
Record unicode_ok (U : unicode_data) : Prop := {
  decimal_ascii :
    forall c, is_ascii_digit c = true -> todecimal U c = Some (c - 48);
  digit_ascii :
    forall c, is_ascii_digit c = true -> isdigit_char U c = true;
  lower_fixes_ascii :
    forall s, forallb ascii_lowercase_safe s = true -> lower U s = s
}.

(** The database restricted to U+0000..U+00FF, where it is small enough to
    write down: ASCII digits are the only decimals, the superscripts
    U+00B2, U+00B3 and U+00B9 are digits without being decimals, and
    lower-casing adds 32 to A-Z and to U+00C0..U+00DE except U+00D7.
    Concrete runs below only use strings inside this range.  The limit on
    integer conversions is the interpreter's default. *)
Definition latin1_lower_char (c : char) : char :=
  if ((65 <=? c) && (c <=? 90))
     || ((192 <=? c) && (c <=? 222) && negb (c =? 215))
  then c + 32 else c.

Definition latin1 : unicode_data := {|
  todecimal := fun c => if (48 <=? c) && (c <=? 57) then Some (c - 48) else None;
  isdigit_char := fun c =>
    ((48 <=? c) && (c <=? 57)) || (c =? 178) || (c =? 179) || (c =? 185);
  lower := map latin1_lower_char;
  int_max_str_digits := 4300
|}.

Section WithUnicode.
Variable U : unicode_data.

(** [s.isdigit()] *)
Definition isdigit (s : str) : bool :=
  truthy s && forallb (isdigit_char U) s.

Definition isdecimal_char (c : char) : bool :=
  match todecimal U c with Some _ => true | None => false end.

(** *** Regular expressions ([re.fullmatch]) *)

Inductive regex :=
| Nothing
| Empty
| Class (p : char -> bool)
| Cat (r1 r2 : regex)
| Alt (r1 r2 : regex)
| Star (r : regex).

Fixpoint nullable (r : regex) : bool :=
  match r with
  | Nothing => false
  | Empty => true
  | Class _ => false
  | Cat r1 r2 => nullable r1 && nullable r2
  | Alt r1 r2 => nullable r1 || nullable r2
  | Star _ => true
  end.

Fixpoint deriv (c : char) (r : regex) : regex :=
  match r with
  | Nothing => Nothing
  | Empty => Nothing
  | Class p => if p c then Empty else Nothing
  | Cat r1 r2 =>
      if nullable r1 then Alt (Cat (deriv c r1) r2) (deriv c r2)
      else Cat (deriv c r1) r2
  | Alt r1 r2 => Alt (deriv c r1) (deriv c r2)
  | Star r1 => Cat (deriv c r1) (Star r1)
  end.

Definition fullmatch (r : regex) (s : str) : bool :=
  nullable (fold_left (fun r c => deriv c r) s r).

(** [r+] and [r{n}] *)
Definition plus (r : regex) : regex := Cat r (Star r).

Fixpoint times (n : nat) (r : regex) : regex :=
  match n with O => Empty | S k => Cat r (times k r) end.

(** [\d], [\.] and [[^@\s]] *)
Definition re_d : regex := Class isdecimal_char.
Definition re_dot : regex := Class (fun c => c =? 46).
Definition re_at : regex := Class (fun c => c =? 64).
Definition re_not_at_space : regex :=
  Class (fun c => negb ((c =? 64) || isspace c)).

(** *** [int(s)] and [str(n)] *)

Inductive exn := ValueError | KeyError | IndexError | IllegalCharacterError.

(** [_PyUnicode_TransformDecimalAndSpaceToASCII]: ASCII is kept, other
    whitespace becomes a blank, other decimals become ASCII digits, and the
    first character that is neither ends the text with a question mark. *)
Fixpoint to_ascii_decimal (s : str) : str :=
  match s with
  | [] => []
  | c :: r =>
      if c <? 127 then c :: to_ascii_decimal r
      else if isspace c then 32 :: to_ascii_decimal r
      else match todecimal U c with
           | Some d => (48 + d) :: to_ascii_decimal r
           | None => [63]
           end
  end.

Fixpoint skip_ascii_space (s : str) : str :=
  match s with
  | c :: r => if isspace_ascii c then skip_ascii_space r else s
  | [] => []
  end.

Definition digit_of_char (c : char) (d : uint) : option uint :=
  match c with
  | 48 => Some (D0 d) | 49 => Some (D1 d) | 50 => Some (D2 d)
  | 51 => Some (D3 d) | 52 => Some (D4 d) | 53 => Some (D5 d)
  | 54 => Some (D6 d) | 55 => Some (D7 d) | 56 => Some (D8 d)
  | 57 => Some (D9 d)
  | _ => None
  end.

(** The digit run of [PyLong_FromString] in base 10: digits with single
    underscores between them, then only blanks.  [prev] tells what came just
    before: [None] at the start, [Some true] after a digit, [Some false] after
    an underscore. *)
Fixpoint scan_digits (s : str) (prev : option bool) : option uint :=
  match s with
  | [] => match prev with Some true => Some Nil | _ => None end
  | c :: r =>
      if is_ascii_digit c then
        match scan_digits r (Some true) with
        | Some d => digit_of_char c d
        | None => None
        end
      else if c =? 95 then
        match prev with
        | Some true => scan_digits r (Some false)
        | _ => None
        end
      else
        match prev with
        | Some true =>
            match skip_ascii_space s with [] => Some Nil | _ => None end
        | _ => None
        end
  end.

(** The length check of [long_from_string_base] and of [str(n)]: a
    conversion of more than 640 digits is refused when the limit is set and
    the number of digits exceeds it. *)
Definition over_limit (digits : nat) : bool :=
  (640 <? Z.of_nat digits) && (0 <? int_max_str_digits U)
  && (int_max_str_digits U <? Z.of_nat digits).

(** The digit run, refused when it has too many digits (underscores do not
    count, leading zeros do). *)
Definition scan_number (s : str) : option uint :=
  match scan_digits s None with
  | Some d => if over_limit (nb_digits d) then None else Some d
  | None => None
  end.

(** [int(s)]: [None] is [ValueError]. *)
Definition int (s : str) : option Z :=
  match skip_ascii_space (to_ascii_decimal s) with
  | 43 :: r => option_map Z.of_uint (scan_number r)
  | 45 :: r => option_map (fun d => - Z.of_uint d) (scan_number r)
  | r => option_map Z.of_uint (scan_number r)
  end.

Fixpoint chars_of_uint (d : uint) : str :=
  match d with
  | Nil => []
  | D0 d => 48 :: chars_of_uint d | D1 d => 49 :: chars_of_uint d
  | D2 d => 50 :: chars_of_uint d | D3 d => 51 :: chars_of_uint d
  | D4 d => 52 :: chars_of_uint d | D5 d => 53 :: chars_of_uint d
  | D6 d => 54 :: chars_of_uint d | D7 d => 55 :: chars_of_uint d
  | D8 d => 56 :: chars_of_uint d | D9 d => 57 :: chars_of_uint d
  end.

(** The digits [str(n)] prints: decimal, no leading zero, a minus sign for
    negatives. *)
Definition str_of_int (n : Z) : str :=
  match Z.to_int n with
  | Decimal.Pos d => chars_of_uint d
  | Decimal.Neg d => 45 :: chars_of_uint d
  end.

(** [str(n)]: [None] is [ValueError], raised when [n] has too many digits. *)
Definition str_int (n : Z) : option str :=
  let d := match Z.to_int n with Decimal.Pos d => d | Decimal.Neg d => d end in
  if over_limit (nb_digits d) then None else Some (str_of_int n).

End WithUnicode.

End Py.

Import Py.

(** ** Python dictionaries with string keys (insertion-ordered) *)

Module Dict.

Definition t (V : Type) := list (string * V).

Fixpoint get {V} (d : t V) (k : string) : option V :=
  match d with
  | [] => None
  | (k', v) :: r => if String.eqb k k' then Some v else get r k
  end.

(** [d.get(k, default)] *)
Definition get_default {V} (d : t V) (k : string) (default : V) : V :=
  match get d k with Some v => v | None => default end.

(** [d[k] = v]: an existing key keeps its place, a new one goes last. *)
Fixpoint set {V} (d : t V) (k : string) (v : V) : t V :=
  match d with
  | [] => [(k, v)]
  | (k', v') :: r =>
      if String.eqb k k' then (k', v) :: r else (k', v') :: set r k v
  end.

Definition keys {V} (d : t V) : list string := map fst d.

Definition mem (k : string) (l : list string) : bool :=
  existsb (String.eqb k) l.

End Dict.

(** ** Results of computations that may raise or halt the script *)

Inductive outcome (A : Type) :=
| Ret (a : A)
| Raise (e : exn)
| Halt.
Arguments Ret {A} a.
Arguments Raise {A} e.
Arguments Halt {A}.

(** ** The spreadsheet *)

(** A cell holds nothing (NaN), text, a whole number, or some other value
    (a float, a boolean, a date; kept by its printed form).  The script only
    writes text; the other kinds appear when a sheet is read back. *)
Inductive cell :=
| NaN
| Text (s : str)
| Int (n : Z)
| Other (repr : str).

Record DataFrame := {
  columns : list string;
  rows : list (list cell)
}.

(** What is at [LEADS_PATH]: nothing, a file [pd.read_excel] cannot read, or
    a workbook, given by the frame that [to_excel] wrote into it. *)
Inductive file :=
| Missing
| Unreadable
| Workbook (df : DataFrame).

(** What pandas and its spreadsheet engine do with a sheet.  It belongs to
    the libraries, not to the repository, so it is a parameter of the model:
    - [writable_text s] tells whether the engine accepts the text [s] in a
      cell (openpyxl raises [IllegalCharacterError] on control characters);
    - [torn f df] is what is at the path after [df.to_excel] raised on a path
      that held [f];
    - [reread df] is what [pd.read_excel] returns for a workbook into which
      [df] was written ([None] when it raises): pandas infers the type of
      every column again and takes some texts for missing values, so it is
      not [df] in general. *)
Record excel := {
  writable_text : str -> bool;
  torn : file -> DataFrame -> file;
  reread : DataFrame -> option DataFrame
}.

Definition path_exists (f : file) : bool :=
  match f with Missing => false | _ => true end.

Definition cell_of (o : option str) : cell :=
  match o with Some v => Text v | None => NaN end.

(** [pd.DataFrame([lead])]: one column per key, one row, holding under each
    key the value the dictionary gives it. *)
Definition frame_of_record (lead : Dict.t str) : DataFrame :=
  {| columns := Dict.keys lead;
     rows := [map (fun k => cell_of (Dict.get lead k)) (Dict.keys lead)] |}.

(** The value of a row under a column name, given the frame's columns. *)
Fixpoint row_get (cols : list string) (row : list cell) (c : string) : cell :=
  match cols, row with
  | k :: cols', x :: row' => if String.eqb c k then x else row_get cols' row' c
  | _, _ => NaN
  end.

Definition reindex (cols : list string) (row : list cell) (target : list string)
  : list cell :=
  map (row_get cols row) target.

(** [pd.concat([a, b], ignore_index=True)]: the columns of [a], then those of
    [b] not among them; the rows of [a], then those of [b], each laid out on
    the joint columns with NaN where it has no value. *)
Definition concat (a b : DataFrame) : DataFrame :=
  let cols :=
    columns a ++ filter (fun c => negb (Dict.mem c (columns a))) (columns b) in
  {| columns := cols;
     rows := map (fun r => reindex (columns a) r cols) (rows a)
             ++ map (fun r => reindex (columns b) r cols) (rows b) |}.

Section Spreadsheet.

Variable XL : excel.

Definition read_excel (f : file) : option DataFrame :=
  match f with
  | Workbook df => reread XL df
  | _ => None
  end.

Definition writable_cell (x : cell) : bool :=
  match x with Text s => writable_text XL s | _ => true end.

(** The engine can write the frame: its header and all its cells. *)
Definition writable (df : DataFrame) : bool :=
  forallb (fun c => writable_text XL (u c)) (columns df)
  && forallb (forallb writable_cell) (rows df).

(** [df.to_excel(path, index=False)] on a path that holds [f]: the outcome
    and what is at the path afterwards. *)
Definition to_excel (df : DataFrame) (f : file) : outcome unit * file :=
  if writable df then (Ret tt, Workbook df)
  else (Raise IllegalCharacterError, torn XL f df).

(** [salvar_lead(lead)] on a path that holds [disk]: the outcome and what is
    at the path afterwards.  Whatever is raised inside the [try] leads to the
    [except] branch. *)
Definition salvar_lead (lead : Dict.t str) (disk : file)
  : outcome unit * file :=
  let df := frame_of_record lead in
  if path_exists disk then
    match read_excel disk with
    | Some antigo =>
        let combinado := concat antigo df in
        match to_excel combinado disk with
        | (Ret _, f) => (Ret tt, f)
        | (_, f) => to_excel df f
        end
    | None => to_excel df disk
    end
  else to_excel df disk.

End Spreadsheet.

(** The cell of row [i] under column [c]; NaN when either is absent. *)
Definition frame_cell (df : DataFrame) (i : nat) (c : string) : cell :=
  match nth_error (rows df) i with
  | Some r => row_get (columns df) r c
  | None => NaN
  end.

(** *** pandas with openpyxl, on the sheets of the examples *)

(** openpyxl's [ILLEGAL_CHARACTERS_RE]: the control characters other than
    tab, line feed and carriage return. *)
Definition illegal_char (c : char) : bool :=
  ((0 <=? c) && (c <=? 8)) || ((11 <=? c) && (c <=? 12))
  || ((14 <=? c) && (c <=? 31)).

(** openpyxl's [check_string]: the text is cut at 32767 characters, then
    refused if an illegal character is left. *)
Definition openpyxl_text (s : str) : bool :=
  negb (existsb illegal_char (firstn (Z.to_nat 32767) s)).

(** The texts [pd.read_excel] takes for missing values by default. *)
Definition na_values : list str :=
  [[]; u "#N/A"; u "#N/A N/A"; u "#NA"; u "-1.#IND"; u "-1.#QNAN"; u "-NaN";
   u "-nan"; u "1.#IND"; u "1.#QNAN"; u "<NA>"; u "N/A"; u "NA"; u "NULL";
   u "NaN"; u "None"; u "n/a"; u "nan"; u "null"].

Definition all_digits (s : str) : bool :=
  truthy s && forallb is_ascii_digit s.

Definition digits_value (s : str) : Z :=
  fold_left (fun n c => 10 * n + (c - 48)) s 0.

Definition numeric_cell (x : cell) : bool :=
  match x with
  | Int _ => true
  | Text s => all_digits s
  | _ => false
  end.

(** Column [j] holds numbers only: pandas then reads it as a column of
    integers. *)
Definition numeric_column (rs : list (list cell)) (j : nat) : bool :=
  forallb (fun r => match nth_error r j with
                    | Some x => numeric_cell x
                    | None => false
                    end) rs.

Definition read_cell (numeric : bool) (x : cell) : cell :=
  match x with
  | Text s => if numeric then Int (digits_value s)
              else if str_in s na_values then NaN else x
  | _ => x
  end.

(** The type inference of [pd.read_excel] on a sheet whose text cells are
    unsigned numerals of at most 18 digits, missing-value markers, or text of
    at most 32767 characters that pandas takes neither for a number nor for
    a boolean and that does not start with an equals sign, and in which no
    column mixes numerals with missing values: a column of numerals becomes a
    column of integers, a missing-value marker becomes NaN, other text is
    kept.  Concrete runs below only read sheets of this kind. *)
Definition retyped (df : DataFrame) : DataFrame :=
  {| columns := columns df;
     rows := map (fun r =>
                    map (fun jx => read_cell (numeric_column (rows df) (fst jx))
                                             (snd jx))
                        (combine (seq 0 (List.length r)) r))
                 (rows df) |}.

(** pandas writing through openpyxl.  A write that raises still saves the
    cells written until then (current pandas closes the writer in a
    [finally]); [torn] gives the header row alone, which is the case when
    the refused text is in the first column, as in the concrete runs
    below. *)
Definition xlsx : excel := {|
  writable_text := openpyxl_text;
  torn := fun _ df => Workbook {| columns := columns df; rows := [] |};
  reread := fun df => Some (retyped df)
|}.

(** ** The application *)

Local Open Scope string_scope.
Local Open Scope Z_scope.
Local Open Scope list_scope.

Section App.

Variable U : unicode_data.
Variable XL : excel.

(** Environment settings read at start-up ([os.getenv]). *)
Variable COMPANY_NAME : str.
Variable COMPANY_BLURB : str.

Definition WELCOME_MSG : str :=
  u "Oi! Sou a **Ayla**, da **" ++ COMPANY_NAME ++ u "**. " ++ COMPANY_BLURB
  ++ [10; 10]
  ++ u "Posso te ajudar a encontrar o seu imóvel dos sonhos, que cabe no seu bolso. Vamos começar?".

Definition SUGGESTIONS : Dict.t str := [
  (":green[:material/house:] Quero comprar", u "Quero comprar um imóvel.");
  (":blue[:material/key:] Quero alugar", u "Quero alugar um imóvel.");
  (":orange[:material/apartment:] Apartamento 2 quartos",
     u "Procuro apartamento com 2 quartos.");
  (":violet[:material/yard:] Casa com quintal", u "Quero uma casa com quintal.");
  (":red[:material/attach_money:] Até 300 mil", u "Meu orçamento é até 300 mil.")
].

(** One second, in microseconds (the resolution of [datetime]). *)
Definition MIN_TIME_BETWEEN_REQUESTS : Z := 1000000.

Definition PERGUNTAS : Dict.t str := [
  ("nome", u "Qual é o seu nome completo?");
  ("telefone", u "Informe seu telefone com DDD (11 dígitos, ex: 11987654321):");
  ("email", u "Qual é o seu e-mail?");
  ("operacao",
     u "Você deseja comprar ou alugar? (Digite 1 para Compra ou 2 para Aluguel)");
  ("tipo_imovel",
     u "Qual tipo de imóvel você procura? (casa, apartamento ou outro)");
  ("metragem", u "Qual a metragem desejada? (apenas números, ex: 80)");
  ("quartos", u "Quantos quartos você deseja? (apenas números)");
  ("faixa_preco",
     u "Qual a faixa de preço que você tem em mente? (responda livremente)");
  ("urgencia", u "Qual é a urgência da sua busca? (alta, média, baixa)")
].

(** *** Validators *)

Definition validar_nome (nome : str) : bool :=
  (2 <=? List.length (split nome))%nat.

Definition validar_telefone (telefone : str) : bool :=
  fullmatch (times 11 (re_d U)) telefone.

Definition validar_email (email : str) : bool :=
  fullmatch
    (Cat (plus re_not_at_space)
       (Cat re_at
          (Cat (plus re_not_at_space)
             (Cat re_dot (plus re_not_at_space)))))
    email.

Definition validar_operacao (op : str) : bool :=
  str_in (strip op) [u "1"; u "2"].

Definition validar_tipo_imovel (tipo : str) : bool :=
  str_in (lower U (strip tipo)) [u "casa"; u "apartamento"; u "outro"].

Definition validar_numero (valor : str) : bool :=
  isdigit U (strip valor).

Definition validar_urgencia (x : str) : bool :=
  str_in (lower U (strip x)) [u "alta"; u "media"; u "média"; u "baixa"].

Definition VALIDADORES : Dict.t (str -> bool) := [
  ("nome", validar_nome);
  ("telefone", validar_telefone);
  ("email", validar_email);
  ("operacao", validar_operacao);
  ("tipo_imovel", validar_tipo_imovel);
  ("metragem", validar_numero);
  ("quartos", validar_numero);
  ("urgencia", validar_urgencia)
].

(** *** Normaliser *)

Definition normalizar_campo (chave : string) (valor : str) : outcome str :=
  let v := strip valor in
  if String.eqb chave "operacao" then
    Ret (if str_eqb v (u "1") then u "compra" else u "aluguel")
  else if String.eqb chave "urgencia" then
    Ret (if str_in (lower U v) [u "media"; u "média"] then u "media"
         else lower U v)
  else if Dict.mem chave ["metragem"; "quartos"] then
    match Py.int U v with
    | Some n =>
        match str_int U n with
        | Some s => Ret s
        | None => Raise ValueError
        end
    | None => Raise ValueError
    end
  else Ret v.

(** *** Session state and the world around it *)

Inductive role := user | assistant.

Definition message := (role * str)%type.

Record session_state := {
  messages : list message;
  initial_question : option str;
  selected_suggestion : option string;
  lead : Dict.t str;
  step : nat;
  prev_question_timestamp : Z
}.

(** [disk] is the file at [LEADS_PATH].  [saved] and [slept] are ghost logs:
    the argument of every [salvar_lead] call, whether it returned or raised,
    and the duration (microseconds) of every [time.sleep] call, oldest
    first. *)
Record world := {
  ss : session_state;
  disk : file;
  saved : list (Dict.t str);
  slept : list Z
}.

(** Session state after the initialisation block. *)
Definition fresh_session : session_state := {|
  messages := [];
  initial_question := None;
  selected_suggestion := None;
  lead := [];
  step := 0;
  prev_question_timestamp := 0
|}.

Definition fresh_world (d : file) : world :=
  {| ss := fresh_session; disk := d; saved := []; slept := [] |}.

(** *** The script monad: state over [world], exceptions and [st.stop()] *)

Definition M (A : Type) := world -> outcome A * world.

Definition ret {A} (a : A) : M A := fun w => (Ret a, w).

Definition bind {A B} (c : M A) (k : A -> M B) : M B :=
  fun w =>
    match c w with
    | (Ret a, w') => k a w'
    | (Raise e, w') => (Raise e, w')
    | (Halt, w') => (Halt, w')
    end.

Definition raise {A} (e : exn) : M A := fun w => (Raise e, w).
Definition stop {A} : M A := fun w => (Halt, w).
Definition session : M session_state := fun w => (Ret (ss w), w).

Definition with_ss (f : session_state -> session_state) (w : world) : world :=
  {| ss := f (ss w); disk := disk w; saved := saved w; slept := slept w |}.

Definition update (f : session_state -> session_state) : M unit :=
  fun w => (Ret tt, with_ss f w).

Definition lift {A} (r : outcome A) : M A := fun w => (r, w).

Definition when (b : bool) (c : M unit) : M unit := if b then c else ret tt.

Notation "x <- c ;; k" := (bind c (fun x => k))
  (at level 61, c at next level, right associativity).
Notation "c ;; k" := (bind c (fun _ => k))
  (at level 61, right associativity).

(** [d[k]] and [l[i]] with their exceptions. *)
Definition getitem {V} (d : Dict.t V) (k : string) : M V :=
  match Dict.get d k with Some v => ret v | None => raise KeyError end.

Definition index {V} (l : list V) (i : nat) : M V :=
  match nth_error l i with Some v => ret v | None => raise IndexError end.

(** Assignments to the keys of [st.session_state]. *)
Definition push (r : role) (content : str) (s : session_state) : session_state :=
  {| messages := messages s ++ [(r, content)];
     initial_question := initial_question s;
     selected_suggestion := selected_suggestion s;
     lead := lead s; step := step s;
     prev_question_timestamp := prev_question_timestamp s |}.

Definition put_lead (chave : string) (v : str) (s : session_state)
  : session_state :=
  {| messages := messages s;
     initial_question := initial_question s;
     selected_suggestion := selected_suggestion s;
     lead := Dict.set (lead s) chave v; step := step s;
     prev_question_timestamp := prev_question_timestamp s |}.

Definition next_step (s : session_state) : session_state :=
  {| messages := messages s;
     initial_question := initial_question s;
     selected_suggestion := selected_suggestion s;
     lead := lead s; step := S (step s);
     prev_question_timestamp := prev_question_timestamp s |}.

Definition stamp (t : Z) (s : session_state) : session_state :=
  {| messages := messages s;
     initial_question := initial_question s;
     selected_suggestion := selected_suggestion s;
     lead := lead s; step := step s;
     prev_question_timestamp := t |}.

Definition append_message (r : role) (content : str) : M unit :=
  update (push r content).

(** [time.sleep(d)] *)
Definition slept_for (d : Z) (w : world) : world :=
  {| ss := ss w; disk := disk w; saved := saved w; slept := slept w ++ [d] |}.

Definition sleep (d : Z) : M unit := fun w => (Ret tt, slept_for d w).

(** A call [salvar_lead(l)] on the file at [LEADS_PATH]: the world it
    leaves, and the call itself, which may raise. *)
Definition persisted (l : Dict.t str) (w : world) : world :=
  {| ss := ss w; disk := snd (salvar_lead XL l (disk w));
     saved := saved w ++ [l]; slept := slept w |}.

Definition do_salvar_lead (l : Dict.t str) : M unit :=
  fun w => (fst (salvar_lead XL l (disk w)), persisted l w).

(** The Restart button's callback. *)
Definition clear_conversation (w : world) : world :=
  {| ss := fresh_session; disk := disk w; saved := saved w; slept := slept w |}.

Definition msg_final : str :=
  u "Perfeito! Lead completo e salvo ✅" ++ [10; 10]
  ++ u "Em breve nossa equipe entrará em contato. "
  ++ u "Se quiser, pode me contar mais preferências (bairro, vagas, pet-friendly etc.).".

Definition perguntar_proximo_campo : M unit :=
  s <- session ;;
  if (step s <? List.length PERGUNTAS)%nat then
    chave <- index (Dict.keys PERGUNTAS) (step s) ;;
    texto <- getitem PERGUNTAS chave ;;
    append_message assistant texto
  else
    do_salvar_lead (lead s) ;;
    append_message assistant msg_final.

Definition mensagens_erro : Dict.t str := [
  ("nome", u "Por favor, informe **nome e sobrenome**.");
  ("telefone",
     u "Telefone deve ter **11 dígitos** (DDD + número), ex.: 11987654321.");
  ("email", u "Digite um **e-mail válido**, ex.: nome@dominio.com.");
  ("operacao", u "Responda com **1** (Compra) ou **2** (Aluguel).");
  ("tipo_imovel", u "Escolha entre **casa**, **apartamento** ou **outro**.");
  ("metragem", u "Digite **apenas números**, ex.: 80.");
  ("quartos", u "Digite **apenas números**, ex.: 2.");
  ("urgencia", u "Responda **alta**, **média** ou **baixa**.")
].

Definition erro_padrao : str := u "A resposta não é válida. Tente novamente.".
Definition entendi : str := u ":white_check_mark: Entendi!".

Definition resposta : str :=
  u "Obrigada! Se quiser, posso anotar mais preferências (bairro, vagas, pet-friendly, "
  ++ u "condomínio, lazer). Também posso encaminhar seu contato para um corretor agora.".

(** [user_message.replace("$", r"\$")] *)
Definition escape_dollar (m : str) : str := replace_char 36 [92; 36] m.

(** Lines 254-258: the check applied to the current field. *)
Definition valido (chave : string) (user_message : str) : bool :=
  if String.eqb chave "faixa_preco" then true
  else
    let validador := Dict.get_default VALIDADORES chave (fun _ => true) in
    validador user_message.

(** Lines 238-242.  [now] and [now'] are the two readings of
    [datetime.datetime.now()]. *)
Definition rate_limit (now now' : Z) : M unit :=
  s <- session ;;
  let delta := now - prev_question_timestamp s in
  when (delta <? MIN_TIME_BETWEEN_REQUESTS)%Z
       (sleep (Z.max 0 (MIN_TIME_BETWEEN_REQUESTS - delta))) ;;
  update (stamp now').

(** Lines 250-300, once the user's bubble is in the transcript. *)
Definition funnel (user_message : str) : M unit :=
  s <- session ;;
  if (step s <? List.length PERGUNTAS)%nat then
    chave <- index (Dict.keys PERGUNTAS) (step s) ;;
    if valido chave user_message then
      v <- lift (normalizar_campo chave user_message) ;;
      update (put_lead chave v) ;;
      update next_step ;;
      append_message assistant entendi ;;
      perguntar_proximo_campo
    else
      let erro := Dict.get_default mensagens_erro chave erro_padrao in
      append_message assistant (u "⚠️ " ++ erro) ;;
      texto <- getitem PERGUNTAS chave ;;
      append_message assistant texto
  else
    append_message assistant resposta.

(** Lines 233-300. *)
Definition process (user_message : str) (now now' : Z) : M unit :=
  let user_message := escape_dollar user_message in
  rate_limit now now' ;;
  append_message user user_message ;;
  funnel user_message.

Definition truthy_opt (o : option str) : bool :=
  match o with Some s => truthy s | None => false end.

Definition truthy_key (o : option string) : bool :=
  match o with Some EmptyString | None => false | Some _ => true end.

(** One execution of the script body.  [typed] is what [st.chat_input]
    returns at line 195 ([None] when nothing was submitted). *)
Definition script (typed : option str) (now now' : Z) : M unit :=
  s <- session ;;
  let user_just_asked_initial_question := truthy_opt (initial_question s) in
  let user_just_clicked_suggestion := truthy_key (selected_suggestion s) in
  let has_message_history := (0 <? List.length (messages s))%nat in
  when (negb (user_just_asked_initial_question || user_just_clicked_suggestion)
        && negb has_message_history) stop ;;
  user_message <-
    (if negb (truthy_opt typed) then
       let m := if user_just_asked_initial_question
                then initial_question s else typed in
       if user_just_clicked_suggestion then
         match selected_suggestion s with
         | Some k => t <- getitem SUGGESTIONS k ;; ret (Some t)
         | None => ret m
         end
       else ret m
     else ret typed) ;;
  when (negb has_message_history)
       (append_message assistant WELCOME_MSG ;; perguntar_proximo_campo) ;;
  match user_message with
  | Some m => when (truthy m) (process m now now')
  | None => ret tt
  end.

(** *** Events *)

(** What reaches one execution from outside: the widget values the framework
    has put in session state, the text typed in the bottom input, and the two
    clock readings. *)
Record inputs := {
  in_initial_question : option str;
  in_selected_suggestion : option string;
  in_typed : option str;
  in_now : Z;
  in_now' : Z
}.

(** [Restart] is the button's callback alone; the execution that follows a
    click is a [Run] like any other. *)
Inductive event :=
| Restart
| Run (i : inputs).

Definition deliver (i : inputs) (w : world) : world :=
  {| ss := {| messages := messages (ss w);
              initial_question := in_initial_question i;
              selected_suggestion := in_selected_suggestion i;
              lead := lead (ss w); step := step (ss w);
              prev_question_timestamp := prev_question_timestamp (ss w) |};
     disk := disk w; saved := saved w; slept := slept w |}.

Definition run (i : inputs) (w : world) : outcome unit * world :=
  script (in_typed i) (in_now i) (in_now' i) (deliver i w).

Definition handle (e : event) (w : world) : world :=
  match e with
  | Restart => clear_conversation w
  | Run i => snd (run i w)
  end.

Definition handle_all (es : list event) (w : world) : world :=
  fold_left (fun w e => handle e w) es w.

(** The world in which [funnel] starts when [process] handles [raw]: the
    pause, if any, is logged, the clock is stamped and the user's bubble is
    in the transcript. *)
Definition arrived (raw : str) (now now' : Z) (w : world) : world :=
  let delta := now - prev_question_timestamp (ss w) in
  with_ss (push user (escape_dollar raw))
    (with_ss (stamp now')
       (if delta <? MIN_TIME_BETWEEN_REQUESTS
        then slept_for (Z.max 0 (MIN_TIME_BETWEEN_REQUESTS - delta)) w
        else w)).

(** The world after the welcome and the first question. *)
Definition greeted (texto : str) (w : world) : world :=
  with_ss (push assistant texto) (with_ss (push assistant WELCOME_MSG) w).

(** A message typed in the bottom chat input; [t] holds the two clock
    readings of that execution. *)
Definition typed_at (t : Z * Z) (m : str) : event :=
  Run {| in_initial_question := None; in_selected_suggestion := None;
         in_typed := Some m; in_now := fst t; in_now' := snd t |}.

(** A message typed in the opening screen's input. *)
Definition opening_at (t : Z * Z) (m : str) : event :=
  Run {| in_initial_question := Some m; in_selected_suggestion := None;
         in_typed := None; in_now := fst t; in_now' := snd t |}.

(** A session driven by typed answers only: the first one goes through the
    opening screen, the others through the chat input; [clock k] gives the
    clock readings of the [k]-th execution. *)
Fixpoint answers_from (clock : nat -> Z * Z) (k : nat) (ms : list str)
  : list event :=
  match ms with
  | [] => []
  | m :: r => typed_at (clock k) m :: answers_from clock (S k) r
  end.

Definition conversation (clock : nat -> Z * Z) (ms : list str) : list event :=
  match ms with
  | [] => []
  | m :: r => opening_at (clock O) m :: answers_from clock 1 r
  end.

(** *** Predicates on worlds used in the statements *)

(** The record holds exactly the first [step] fields, and an empty
    transcript means nothing was asked yet. *)
Definition coherent (w : world) : Prop :=
  (step (ss w) <= 9)%nat /\
  Dict.keys (lead (ss w)) = firstn (step (ss w)) (Dict.keys PERGUNTAS) /\
  (messages (ss w) = [] -> step (ss w) = 0%nat).

(** Since the session began [salvar_lead] has been called once, with the
    record, if the funnel is complete, and not at all otherwise. *)
Definition settled (start w : world) : Prop :=
  coherent w /\
  saved w = saved start
            ++ (if (step (ss w) =? 9)%nat then [lead (ss w)] else []) /\
  disk w = (if (step (ss w) =? 9)%nat
            then snd (salvar_lead XL (lead (ss w)) (disk start))
            else disk start).

(** What matters of a world for the next answer. *)
Definition standing (w : world) (n : nat) (l : Dict.t str)
           (sv : list (Dict.t str)) (dk : file) : Prop :=
  step (ss w) = n /\ lead (ss w) = l /\ saved w = sv /\ disk w = dk.

End App.

(** ** Example data *)

(** The nine answers of the specification's round trip and the record they
    should produce. *)
Definition ana_answers : list str :=
  [u "Ana Silva"; u "11987654321"; u "ana@ex.com"; u "1"; u "casa"; u "80";
   u "2"; u "até 300 mil"; u "alta"].

Definition ana_record : Dict.t str :=
  [("nome", u "Ana Silva"); ("telefone", u "11987654321");
   ("email", u "ana@ex.com"); ("operacao", u "compra");
   ("tipo_imovel", u "casa"); ("metragem", u "80"); ("quartos", u "2");
   ("faixa_preco", u "até 300 mil"); ("urgencia", u "alta")].

(** A second lead: the telephone starts with a zero, the area has one too,
    and the price range is left as "n/a". *)
Definition zoe_answers : list str :=
  [u "Zoe Reis"; u "01987654321"; u "zoe@ex.com"; u "2"; u "outro"; u "050";
   u "3"; u "n/a"; u "baixa"].

Definition zoe_record : Dict.t str :=
  [("nome", u "Zoe Reis"); ("telefone", u "01987654321");
   ("email", u "zoe@ex.com"); ("operacao", u "aluguel");
   ("tipo_imovel", u "outro"); ("metragem", u "50"); ("quartos", u "3");
   ("faixa_preco", u "n/a"); ("urgencia", u "baixa")].

(** The first example with a vertical tab (U+000B) between the two names,
    as a paste from another document may bring it. *)
Definition tab_name : str := u "Ana" ++ [11] ++ u "Silva".

Definition tab_answers : list str := tab_name :: tl ana_answers.

Definition tab_record : Dict.t str := ("nome", tab_name) :: tl ana_record.

(** A clock for concrete runs: one execution every three seconds. *)
Definition steady_clock (k : nat) : Z * Z :=
  let t := 1700000000000000 + 3000000 * Z.of_nat k in (t, t + 1000).

(** The world after the first [n] answers of the example, then [m] typed. *)
Definition after_answers (n : nat) (m : str) : world :=
  handle_all latin1 xlsx [] []
    (conversation steady_clock (firstn n ana_answers ++ [m]))
    (fresh_world Missing).

(** The same conversation as raw inputs, followed by two more messages. *)
Definition ana_inputs : list inputs :=
  {| in_initial_question := Some (u "Ana Silva");
     in_selected_suggestion := None; in_typed := None;
     in_now := fst (steady_clock 0); in_now' := snd (steady_clock 0) |}
  :: map (fun m => {| in_initial_question := None;
                      in_selected_suggestion := None; in_typed := Some m;
                      in_now := fst (steady_clock 1);
                      in_now' := snd (steady_clock 1) |})
         (tl ana_answers ++ [u "mais perto do metrô"; u "obrigada"]).

(** ** Notions used to state further properties *)

(** The strings a regular expression denotes. *)
Inductive matches : regex -> str -> Prop :=
| matches_empty : matches Empty []
| matches_class (p : char -> bool) (c : char) :
    p c = true -> matches (Class p) [c]
| matches_cat (r1 r2 : regex) (s1 s2 : str) :
    matches r1 s1 -> matches r2 s2 -> matches (Cat r1 r2) (s1 ++ s2)
| matches_alt_l (r1 r2 : regex) (s : str) :
    matches r1 s -> matches (Alt r1 r2) s
| matches_alt_r (r1 r2 : regex) (s : str) :
    matches r2 s -> matches (Alt r1 r2) s
| matches_star_nil (r : regex) : matches (Star r) []
| matches_star_app (r : regex) (s1 s2 : str) :
    matches r s1 -> matches (Star r) s2 -> matches (Star r) (s1 ++ s2).

(** A character allowed in the three parts of an e-mail address. *)
Definition email_char (c : char) : bool := negb ((c =? 64) || isspace c).

(** What the funnel's progress consists of: step, record, log of saved
    records and spreadsheet. *)
Definition funnel_view (w : world)
  : nat * Dict.t str * list (Dict.t str) * file :=
  (step (ss w), lead (ss w), saved w, disk w).

(** The world in which the message of an execution is processed: the
    widget values are in place and, if the transcript was empty, the welcome
    and the first question have been added. *)
Definition entered (COMPANY_NAME COMPANY_BLURB : str) (i : inputs) (w : world)
  : world :=
  match messages (ss w) with
  | [] => greeted COMPANY_NAME COMPANY_BLURB (u "Qual é o seu nome completo?")
                  (deliver i w)
  | _ => deliver i w
  end.

(** A computation whose outcome and effect on the session state depend on
    the session state alone, not on the file or the logs. *)
Definition ss_local {A} (c : M A) : Prop :=
  forall w1 w2, ss w1 = ss w2 ->
    fst (c w1) = fst (c w2) /\ ss (snd (c w1)) = ss (snd (c w2)).

(** * Properties *)

(** ** Strings *)

Lemma str_eqb_eq (a b : str) : str_eqb a b = true <-> a = b.
Proof.
  revert b; induction a as [|x a IH]; intros [|y b]; simpl;
    try (split; (reflexivity || discriminate)).
  rewrite andb_true_iff, Z.eqb_eq, IH.
  split; [intros [-> ->]; reflexivity | intros E; inversion E; auto].
Qed.

Lemma lstrip_fixed (c : char) (r : str) :
  isspace c = false -> lstrip (c :: r) = c :: r.
Proof. intros H; simpl; rewrite H; reflexivity. Qed.

Lemma lstrip_head (s : str) :
  lstrip s = [] \/ exists c r, lstrip s = c :: r /\ isspace c = false.
Proof.
  induction s as [|c r IH]; simpl; [left; reflexivity|].
  destruct (isspace c) eqn:E; [exact IH|].
  right; exists c, r; split; [reflexivity | exact E].
Qed.

Lemma lstrip_idem (s : str) : lstrip (lstrip s) = lstrip s.
Proof.
  destruct (lstrip_head s) as [-> | (c & r & -> & H)];
    [reflexivity | apply lstrip_fixed; exact H].
Qed.

Lemma lstrip_suffix (s : str) : exists w, s = w ++ lstrip s.
Proof.
  induction s as [|c r [w IH]]; simpl; [exists []; reflexivity|].
  destruct (isspace c).
  - exists (c :: w); simpl; rewrite <- IH; reflexivity.
  - exists []; reflexivity.
Qed.

Lemma rstrip_prefix (s : str) : exists w, s = rstrip s ++ w.
Proof.
  unfold rstrip. destruct (lstrip_suffix (rev s)) as [w E].
  exists (rev w).
  rewrite <- rev_app_distr, <- E, rev_involutive; reflexivity.
Qed.

Lemma rstrip_idem (s : str) : rstrip (rstrip s) = rstrip s.
Proof. unfold rstrip; rewrite rev_involutive, lstrip_idem; reflexivity. Qed.

Lemma lstrip_rstrip (s : str) : lstrip s = s -> lstrip (rstrip s) = rstrip s.
Proof.
  intros Hs. destruct (rstrip_prefix s) as [w E].
  destruct (rstrip s) as [|c q] eqn:R; [reflexivity|].
  destruct (lstrip_head s) as [H | (c' & r' & H & Hc)]; rewrite Hs in H.
  - rewrite H in E; discriminate.
  - rewrite H in E; simpl in E; inversion E; subst c'.
    apply lstrip_fixed; exact Hc.
Qed.

(** [strip] is idempotent. *)
Lemma strip_idem (s : str) : strip (strip s) = strip s.
Proof.
  unfold strip.
  rewrite (lstrip_rstrip (lstrip s) (lstrip_idem s)).
  apply rstrip_idem.
Qed.

Lemma lstrip_no_space (s : str) :
  forallb (fun c => negb (isspace c)) s = true -> lstrip s = s.
Proof.
  destruct s as [|c r]; simpl; [reflexivity|].
  rewrite andb_true_iff, negb_true_iff; intros [-> _]; reflexivity.
Qed.

Lemma strip_no_space (s : str) :
  forallb (fun c => negb (isspace c)) s = true -> strip s = s.
Proof.
  intros H. unfold strip, rstrip.
  rewrite (lstrip_no_space s H), lstrip_no_space, rev_involutive; [reflexivity|].
  rewrite forallb_forall in *; intros c Hc; apply H, in_rev, Hc.
Qed.

(** ** Integers: parsing what [str] printed *)

Section IntStr.
Variable U : unicode_data.

Lemma chars_of_uint_digits (d : uint) :
  forallb is_ascii_digit (chars_of_uint d) = true.
Proof. induction d; simpl; auto. Qed.

Lemma to_ascii_decimal_ascii (s : str) :
  forallb (fun c => c <? 127) s = true -> to_ascii_decimal U s = s.
Proof.
  induction s as [|c r IH]; simpl; [reflexivity|].
  rewrite andb_true_iff; intros [-> H]; rewrite IH by exact H; reflexivity.
Qed.

Lemma scan_chars_of_uint (d : uint) (prev : option bool) :
  d <> Nil \/ prev = Some true ->
  scan_digits (chars_of_uint d) prev = Some d.
Proof.
  revert prev; induction d; intros prev H;
    try (simpl; rewrite IHd by (right; reflexivity); reflexivity).
  destruct H as [H | ->]; [contradiction | reflexivity].
Qed.

Lemma forallb_weaken {A} (p q : A -> bool) (l : list A) :
  (forall x, p x = true -> q x = true) ->
  forallb p l = true -> forallb q l = true.
Proof.
  intros Hpq; rewrite !forallb_forall; intros H x Hx; apply Hpq, H, Hx.
Qed.

Lemma ascii_digit_ascii (c : char) : is_ascii_digit c = true -> (c <? 127) = true.
Proof. unfold is_ascii_digit; intros H; apply Z.ltb_lt; lia. Qed.

Lemma ascii_digit_no_space (c : char) :
  is_ascii_digit c = true -> negb (isspace c) = true.
Proof. unfold is_ascii_digit, isspace; intros H; lia. Qed.

Lemma over_limit_le (a b : nat) :
  (a <= b)%nat -> over_limit U b = false -> over_limit U a = false.
Proof.
  unfold over_limit. intros H. rewrite !andb_false_iff, !Z.ltb_ge. lia.
Qed.

Lemma over_limit_small (a : nat) : (a <= 640)%nat -> over_limit U a = false.
Proof.
  unfold over_limit. intros H.
  destruct (Z.ltb_spec 640 (Z.of_nat a)); [lia | reflexivity].
Qed.

Lemma nb_digits_chars (d : uint) : List.length (chars_of_uint d) = nb_digits d.
Proof. induction d; simpl; congruence. Qed.

Lemma scan_number_chars (d : uint) :
  d <> Nil -> over_limit U (nb_digits d) = false ->
  scan_number U (chars_of_uint d) = Some d.
Proof.
  intros Hd Hl. unfold scan_number.
  rewrite scan_chars_of_uint by (left; exact Hd). rewrite Hl. reflexivity.
Qed.

(** [int] on a run of ASCII digits: its value, unless there are too many. *)
Lemma int_chars (d : uint) :
  d <> Nil ->
  Py.int U (chars_of_uint d)
  = if over_limit U (nb_digits d) then None else Some (Z.of_uint d).
Proof.
  intros Hd. unfold Py.int.
  rewrite to_ascii_decimal_ascii
    by (eapply forallb_weaken; [apply ascii_digit_ascii | apply chars_of_uint_digits]).
  assert (Hs : scan_number U (chars_of_uint d)
               = if over_limit U (nb_digits d) then None else Some d).
  { unfold scan_number. rewrite scan_chars_of_uint by (left; exact Hd).
    reflexivity. }
  revert Hs. generalize (scan_number U). intros f Hs.
  transitivity (option_map Z.of_uint (f (chars_of_uint d))).
  - destruct d; try contradiction; reflexivity.
  - rewrite Hs. destruct (over_limit U (nb_digits d)); reflexivity.
Qed.

Lemma int_of_uint_chars (d : uint) :
  d <> Nil -> over_limit U (nb_digits d) = false ->
  Py.int U (chars_of_uint d) = Some (Z.of_uint d).
Proof. intros Hd Hl. rewrite int_chars, Hl by exact Hd. reflexivity. Qed.

Lemma digit_of_char_nonnil (c : char) (d d' : uint) :
  is_ascii_digit c = true -> digit_of_char c d = Some d' -> d' <> Nil.
Proof.
  unfold is_ascii_digit. intros Hc.
  assert (Hr : c = 48 \/ c = 49 \/ c = 50 \/ c = 51 \/ c = 52 \/ c = 53
               \/ c = 54 \/ c = 55 \/ c = 56 \/ c = 57) by lia.
  destruct Hr as [-> | [-> | [-> | [-> | [-> | [-> | [-> | [-> | [-> | ->]]]]]]]]];
    simpl; intros H; injection H as <-; discriminate.
Qed.

Lemma scan_digits_nonnil (s : str) (d : uint) :
  scan_digits s None = Some d -> d <> Nil.
Proof.
  destruct s as [|c r]; simpl; [discriminate|].
  destruct (is_ascii_digit c) eqn:Hc.
  - destruct (scan_digits r (Some true)) as [d'|]; [|discriminate].
    apply digit_of_char_nonnil. exact Hc.
  - destruct (c =? 95); discriminate.
Qed.

(** What [int] returns is the value of a digit run within the limit, with
    its sign. *)
Lemma int_inv (s : str) (n : Z) :
  Py.int U s = Some n ->
  exists d, d <> Nil /\ over_limit U (nb_digits d) = false /\
            (n = Z.of_int (Decimal.Pos d) \/ n = Z.of_int (Decimal.Neg d)).
Proof.
  assert (G : forall r (neg : bool),
            option_map (fun d => if neg then - Z.of_uint d else Z.of_uint d)
                       (scan_number U r) = Some n ->
            exists d, d <> Nil /\ over_limit U (nb_digits d) = false /\
              (n = Z.of_int (Decimal.Pos d) \/ n = Z.of_int (Decimal.Neg d))).
  { intros r neg. unfold scan_number.
    destruct (scan_digits r None) as [d|] eqn:Hs; [|discriminate].
    destruct (over_limit U (nb_digits d)) eqn:Hl; [discriminate|].
    simpl. intros H. injection H as <-. exists d.
    split; [exact (scan_digits_nonnil r d Hs)|]. split; [exact Hl|].
    destruct neg; [right | left]; reflexivity. }
  unfold Py.int.
  destruct (skip_ascii_space (to_ascii_decimal U s)) as [|c r];
    [exact (G [] false)|].
  destruct c as [|p|p];
    [exact (G (0 :: r) false) | | exact (G (Z.neg p :: r) false)].
  repeat match goal with
         | |- context [match ?q with xI _ => _ | xO _ => _ | xH => _ end] =>
             destruct q
         end;
    first [ exact (G r false) | exact (G r true) | exact (G (_ :: r) false) ].
Qed.

Lemma to_int_digits (d : uint) (neg : bool) :
  d <> Nil ->
  let i := Z.to_int (Z.of_int (if neg then Decimal.Neg d else Decimal.Pos d)) in
  (nb_digits (match i with Decimal.Pos x => x | Decimal.Neg x => x end)
   <= nb_digits d)%nat.
Proof.
  intros Hd. cbv zeta. rewrite DecimalZ.to_of.
  destruct neg; simpl.
  - pose proof (nb_digits_nzhead d) as H.
    destruct (nzhead d) eqn:E; try exact H.
    simpl. destruct d; [contradiction | simpl; lia ..].
  - apply nb_digits_unorm. exact Hd.
Qed.

(** A number that [int] returned is within the limit of [str]. *)
Lemma int_within_limit (s : str) (n : Z) :
  Py.int U s = Some n ->
  over_limit U (nb_digits (match Z.to_int n with
                           | Decimal.Pos x => x | Decimal.Neg x => x
                           end)) = false.
Proof.
  intros H. destruct (int_inv s n H) as (d & Hd & Hl & [-> | ->]).
  - exact (over_limit_le _ _ (to_int_digits d false Hd) Hl).
  - exact (over_limit_le _ _ (to_int_digits d true Hd) Hl).
Qed.

(** [str(int(s))] does not raise once [int(s)] has returned. *)
Lemma str_int_after_int (s : str) (n : Z) :
  Py.int U s = Some n -> str_int U n = Some (str_of_int n).
Proof.
  intros H. unfold str_int. rewrite (int_within_limit s n H). reflexivity.
Qed.

(** [int(str(n)) == n] for a number within the limit. *)
Lemma int_str_of_int (n : Z) :
  over_limit U (nb_digits (match Z.to_int n with
                           | Decimal.Pos x => x | Decimal.Neg x => x
                           end)) = false ->
  Py.int U (str_of_int n) = Some n.
Proof.
  intros Hl. rewrite <- (DecimalZ.of_to n) at 2. unfold str_of_int.
  destruct n as [|p|p]; simpl Z.to_int in *; cbv iota in *.
  - reflexivity.
  - apply int_of_uint_chars; [apply DecimalPos.Unsigned.to_uint_nonnil | exact Hl].
  - pose proof (DecimalPos.Unsigned.to_uint_nonnil p) as Hp.
    unfold Py.int. simpl to_ascii_decimal.
    rewrite to_ascii_decimal_ascii
      by (eapply forallb_weaken; [apply ascii_digit_ascii | apply chars_of_uint_digits]).
    pose proof (scan_number_chars _ Hp Hl) as Hs.
    revert Hs. generalize (scan_number U). intros f Hs.
    exact (f_equal (option_map (fun d => - Z.of_uint d)) Hs).
Qed.

Lemma strip_str_of_int (n : Z) : strip (str_of_int n) = str_of_int n.
Proof.
  apply strip_no_space. unfold str_of_int.
  destruct (Z.to_int n); simpl;
    eapply forallb_weaken; try apply ascii_digit_no_space;
    apply chars_of_uint_digits.
Qed.

End IntStr.

(** ** Unicode tables and regular expressions *)

Lemma latin1_ok : unicode_ok latin1.
Proof.
  constructor.
  - intros c H. simpl. unfold is_ascii_digit in H. rewrite H. reflexivity.
  - intros c H. simpl. unfold is_ascii_digit in H. rewrite H. reflexivity.
  - intros s H. simpl. rewrite <- (map_id s) at 2.
    apply map_ext_in. intros c Hc.
    rewrite forallb_forall in H. specialize (H c Hc).
    unfold ascii_lowercase_safe in H. unfold latin1_lower_char.
    destruct ((65 <=? c) && (c <=? 90)) eqn:E1;
      [rewrite andb_false_r in H; discriminate|].
    destruct ((192 <=? c) && (c <=? 222) && negb (c =? 215)) eqn:E2;
      [|reflexivity].
    lia.
Qed.

Section Regex.
Variable U : unicode_data.

Local Abbreviation derivs := (fold_left (fun r c => deriv c r)).

Lemma derivs_nothing (s : str) : derivs s Nothing = Nothing.
Proof. induction s as [|c s IH]; [reflexivity | exact IH]. Qed.

Lemma derivs_alt (s : str) (a b : regex) :
  derivs s (Alt a b) = Alt (derivs s a) (derivs s b).
Proof.
  revert a b; induction s as [|c s IH]; intros a b; [reflexivity|].
  simpl. apply IH.
Qed.

Lemma derivs_cat_nothing (s : str) (r : regex) :
  derivs s (Cat Nothing r) = Cat Nothing r.
Proof. induction s as [|c s IH]; [reflexivity | exact IH]. Qed.

Lemma fullmatch_cat_empty (s : str) (r : regex) :
  fullmatch (Cat Empty r) s = fullmatch r s.
Proof.
  unfold fullmatch. destruct s as [|c s]; [reflexivity|].
  simpl. rewrite derivs_alt, derivs_cat_nothing. reflexivity.
Qed.

(** [p{n}] matches the strings of [n] characters of class [p]. *)
Lemma fullmatch_times_class (p : char -> bool) (n : nat) (s : str) :
  fullmatch (times n (Class p)) s = (List.length s =? n)%nat && forallb p s.
Proof.
  revert s; induction n as [|n IH]; intros [|c s]; try reflexivity.
  - unfold fullmatch. simpl. rewrite derivs_nothing. reflexivity.
  - change (fullmatch (times (S n) (Class p)) (c :: s))
      with (fullmatch (Cat (if p c then Empty else Nothing) (times n (Class p))) s).
    simpl. destruct (p c).
    + rewrite fullmatch_cat_empty. apply IH.
    + unfold fullmatch. rewrite derivs_cat_nothing, andb_false_r. reflexivity.
Qed.

Lemma validar_telefone_ascii (s : str) :
  unicode_ok U ->
  List.length s = 11%nat -> forallb is_ascii_digit s = true ->
  validar_telefone U s = true.
Proof.
  intros HU Hl Hd. unfold validar_telefone, re_d.
  rewrite fullmatch_times_class, Hl. simpl.
  rewrite forallb_forall in *. intros c Hc.
  unfold isdecimal_char. rewrite (decimal_ascii U HU c (Hd c Hc)). reflexivity.
Qed.

Lemma validar_numero_ascii (s : str) :
  unicode_ok U ->
  truthy (strip s) = true -> forallb is_ascii_digit (strip s) = true ->
  validar_numero U s = true.
Proof.
  intros HU Ht Hd. unfold validar_numero, isdigit. rewrite Ht. simpl.
  rewrite forallb_forall in *. intros c Hc. apply (digit_ascii U HU c (Hd c Hc)).
Qed.

End Regex.

(** ** The spreadsheet: when a write succeeds *)

Lemma dict_mem_In (k : string) (l : list string) :
  Dict.mem k l = true <-> In k l.
Proof.
  unfold Dict.mem. rewrite existsb_exists. split.
  - intros (x & Hx & E). apply String.eqb_eq in E. subst; exact Hx.
  - intros H. exists k. split; [exact H | apply String.eqb_refl].
Qed.

Lemma row_get_reindexed (cols : list string) (f : string -> cell) (c : string) :
  row_get cols (map f cols) c = if Dict.mem c cols then f c else NaN.
Proof.
  induction cols as [|k cols IH]; [reflexivity|].
  simpl. destruct (String.eqb_spec c k) as [-> | _]; [reflexivity | exact IH].
Qed.

Lemma dict_get_absent {V} (l : Dict.t V) (k : string) :
  ~ In k (Dict.keys l) -> Dict.get l k = None.
Proof.
  induction l as [|[k' v] l IH]; intros H; [reflexivity|].
  simpl. destruct (String.eqb_spec k k') as [-> | _].
  - elim H; left; reflexivity.
  - apply IH. intros Hin; apply H; right; exact Hin.
Qed.

(** The row of a record holds, under every name, what the record gives it
    (NaN for a name it does not have). *)
Lemma row_get_record (l : Dict.t str) (k : string) :
  row_get (Dict.keys l) (map (fun k => cell_of (Dict.get l k)) (Dict.keys l)) k
  = cell_of (Dict.get l k).
Proof.
  rewrite row_get_reindexed.
  destruct (Dict.mem k (Dict.keys l)) eqn:Hm; [reflexivity|].
  rewrite dict_get_absent; [reflexivity|].
  intros Hin. apply dict_mem_In in Hin. congruence.
Qed.

Lemma concat_has_columns (a b : DataFrame) (c : string) :
  In c (columns b) -> In c (columns (concat a b)).
Proof.
  intros H. unfold concat; cbn [columns]. apply in_or_app.
  destruct (Dict.mem c (columns a)) eqn:Hm.
  - left. apply dict_mem_In. exact Hm.
  - right. apply filter_In. rewrite Hm. auto.
Qed.

Lemma concat_columns_prefix (a b : DataFrame) :
  firstn (List.length (columns a)) (columns (concat a b)) = columns a.
Proof.
  unfold concat; cbn [columns].
  rewrite firstn_app, firstn_all, Nat.sub_diag. apply app_nil_r.
Qed.

Lemma concat_rows_length (a b : DataFrame) :
  List.length (rows (concat a b))
  = (List.length (rows a) + List.length (rows b))%nat.
Proof. unfold concat; cbn [rows]. rewrite length_app, !length_map. reflexivity. Qed.

(** The rows of the first frame keep their cells. *)
Lemma concat_old_cell (a b : DataFrame) (i : nat) (c : string) :
  (i < List.length (rows a))%nat -> In c (columns a) ->
  frame_cell (concat a b) i c = frame_cell a i c.
Proof.
  intros Hi Hc. unfold frame_cell, concat. cbn [columns rows].
  rewrite nth_error_app1 by (rewrite length_map; exact Hi).
  rewrite nth_error_map.
  destruct (nth_error (rows a) i) as [r|] eqn:Hr.
  - cbn [option_map]. unfold reindex. rewrite row_get_reindexed.
    rewrite (proj2 (dict_mem_In c _)); [reflexivity|].
    apply in_or_app; left; exact Hc.
  - apply nth_error_None in Hr. lia.
Qed.

(** The row after them is the record. *)
Lemma concat_new_row (a : DataFrame) (l : Dict.t str) (k : string) :
  frame_cell (concat a (frame_of_record l)) (List.length (rows a)) k
  = cell_of (Dict.get l k).
Proof.
  pose proof (concat_has_columns a (frame_of_record l) k) as Hin.
  unfold frame_cell, concat in *. cbn [columns rows frame_of_record] in *.
  rewrite nth_error_app2 by (rewrite length_map; lia).
  rewrite length_map, Nat.sub_diag. cbn [map nth_error].
  unfold reindex. rewrite row_get_reindexed, row_get_record.
  match goal with
  | |- (if Dict.mem k ?cols then _ else _) = _ =>
      destruct (Dict.mem k cols) eqn:Hm; [reflexivity|]
  end.
  rewrite dict_get_absent; [reflexivity|].
  intros Hk. apply Hin, dict_mem_In in Hk. congruence.
Qed.

Section Writing.

Variable XL : excel.

(** A sheet that can be written with one more record can be written with
    that record alone: every cell and every column name of the record is in
    the joint sheet. *)
Lemma writable_concat (a : DataFrame) (l : Dict.t str) :
  writable XL (concat a (frame_of_record l)) = true ->
  writable XL (frame_of_record l) = true.
Proof.
  unfold writable. rewrite !andb_true_iff. intros [Hc Hr].
  pose proof (concat_has_columns a (frame_of_record l)) as Hin.
  set (cols := columns (concat a (frame_of_record l))) in *.
  cbn [columns rows frame_of_record] in *.
  rewrite forallb_forall in Hc. split.
  - apply forallb_forall. intros k Hk. apply Hc, Hin, Hk.
  - cbn [forallb]. rewrite andb_true_r.
    unfold concat in Hr. cbn [rows columns frame_of_record map] in Hr.
    rewrite forallb_app in Hr. apply andb_true_iff in Hr. destruct Hr as [_ Hr].
    cbn [forallb] in Hr. rewrite andb_true_r in Hr.
    fold cols in Hr. unfold reindex in Hr.
    rewrite forallb_forall in Hr. apply forallb_forall.
    intros x Hx. apply in_map_iff in Hx. destruct Hx as (k & <- & Hk).
    specialize (Hr (row_get (Dict.keys l)
                      (map (fun k => cell_of (Dict.get l k)) (Dict.keys l)) k)).
    rewrite row_get_reindexed in Hr.
    rewrite (proj2 (dict_mem_In k (Dict.keys l)) Hk) in Hr.
    apply Hr. apply in_map_iff. exists k. rewrite row_get_reindexed.
    rewrite (proj2 (dict_mem_In k (Dict.keys l)) Hk).
    split; [reflexivity | apply Hin, Hk].
Qed.

(** [salvar_lead] returns normally exactly when the record alone can be
    written, whatever is at the path. *)
Lemma salvar_lead_outcome (l : Dict.t str) (f : file) :
  fst (salvar_lead XL l f)
  = if writable XL (frame_of_record l) then Ret tt
    else Raise IllegalCharacterError.
Proof.
  unfold salvar_lead, to_excel.
  destruct (path_exists f); [|destruct (writable XL _); reflexivity].
  destruct (read_excel XL f) as [antigo|];
    [|destruct (writable XL _); reflexivity].
  destruct (writable XL (concat antigo (frame_of_record l))) eqn:Hc.
  - rewrite (writable_concat antigo l Hc). reflexivity.
  - destruct (writable XL (frame_of_record l)); reflexivity.
Qed.

(** When the record can be written, [salvar_lead] leaves a workbook whose
    last row is the record. *)
Lemma salvar_lead_last_row (l : Dict.t str) (f : file) :
  writable XL (frame_of_record l) = true ->
  exists df,
    salvar_lead XL l f = (Ret tt, Workbook df) /\
    forall k, frame_cell df (List.length (rows df) - 1) k
              = cell_of (Dict.get l k).
Proof.
  intros Hw.
  assert (H1 : forall k, frame_cell (frame_of_record l)
                           (List.length (rows (frame_of_record l)) - 1) k
                         = cell_of (Dict.get l k))
    by (intros k; apply row_get_record).
  unfold salvar_lead, to_excel. rewrite Hw.
  destruct (path_exists f); [|eauto].
  destruct (read_excel XL f) as [antigo|]; [|eauto].
  destruct (writable XL (concat antigo (frame_of_record l))); [|eauto].
  eexists. split; [reflexivity|]. intros k.
  rewrite concat_rows_length. cbn [rows frame_of_record List.length].
  replace (List.length (rows antigo) + 1 - 1)%nat
    with (List.length (rows antigo)) by lia.
  apply concat_new_row.
Qed.

End Writing.

(** ** The funnel, one execution at a time *)

Section Funnel.

Variable U : unicode_data.
Variable XL : excel.
Variables COMPANY_NAME COMPANY_BLURB : str.

Local Abbreviation KEYS := (Dict.keys PERGUNTAS).
Local Abbreviation total := 9%nat.

Ltac run_monad :=
  cbv beta iota delta
    [bind ret raise stop session update lift when getitem index
     append_message sleep do_salvar_lead].

Lemma field_at (n : nat) :
  (n < total)%nat ->
  exists chave texto,
    nth_error KEYS n = Some chave /\ Dict.get PERGUNTAS chave = Some texto.
Proof.
  intros H.
  do 9 (destruct n as [|n]; [do 2 eexists; split; reflexivity|]).
  lia.
Qed.

Lemma field_at_lt (n : nat) (chave : string) :
  nth_error KEYS n = Some chave -> (n < total)%nat.
Proof.
  intros H. apply (proj1 (nth_error_Some KEYS n)). rewrite H; discriminate.
Qed.

Lemma ask_next (w : world) (chave : string) (texto : str) :
  nth_error KEYS (step (ss w)) = Some chave ->
  Dict.get PERGUNTAS chave = Some texto ->
  perguntar_proximo_campo XL w = (Ret tt, with_ss (push assistant texto) w).
Proof.
  intros Hk Ht. pose proof (field_at_lt _ _ Hk) as Hlt.
  unfold perguntar_proximo_campo. run_monad.
  change (List.length PERGUNTAS) with total.
  destruct (Nat.ltb_spec (step (ss w)) total); [|lia].
  rewrite Hk, Ht. reflexivity.
Qed.

(** On a complete funnel the record is saved, and the closing message
    follows only if the save returned. *)
Lemma ask_done (w : world) :
  (total <= step (ss w))%nat ->
  perguntar_proximo_campo XL w
  = if writable XL (frame_of_record (lead (ss w)))
    then (Ret tt,
          with_ss (push assistant msg_final) (persisted XL (lead (ss w)) w))
    else (Raise IllegalCharacterError, persisted XL (lead (ss w)) w).
Proof.
  intros H. unfold perguntar_proximo_campo. run_monad.
  change (List.length PERGUNTAS) with total.
  destruct (Nat.ltb_spec (step (ss w)) total); [lia|].
  rewrite salvar_lead_outcome.
  destruct (writable XL (frame_of_record (lead (ss w)))); reflexivity.
Qed.

Lemma funnel_complete (m : str) (w : world) :
  (total <= step (ss w))%nat ->
  funnel U XL m w = (Ret tt, with_ss (push assistant resposta) w).
Proof.
  intros H. unfold funnel. run_monad.
  change (List.length PERGUNTAS) with total.
  destruct (Nat.ltb_spec (step (ss w)) total); [lia | reflexivity].
Qed.

Lemma funnel_rejected (m : str) (w : world) (chave : string) (texto : str) :
  nth_error KEYS (step (ss w)) = Some chave ->
  Dict.get PERGUNTAS chave = Some texto ->
  valido U chave m = false ->
  funnel U XL m w
  = (Ret tt,
     with_ss (push assistant texto)
       (with_ss (push assistant
                   (u "⚠️ " ++ Dict.get_default mensagens_erro chave erro_padrao))
          w)).
Proof.
  intros Hk Ht Hv. pose proof (field_at_lt _ _ Hk) as Hlt.
  unfold funnel. run_monad.
  change (List.length PERGUNTAS) with total.
  destruct (Nat.ltb_spec (step (ss w)) total); [|lia].
  rewrite Hk, Hv, Ht. reflexivity.
Qed.

Lemma funnel_accepted (m : str) (w : world) (chave : string) (v : str) :
  nth_error KEYS (step (ss w)) = Some chave ->
  valido U chave m = true ->
  normalizar_campo U chave m = Ret v ->
  funnel U XL m w
  = perguntar_proximo_campo XL
      (with_ss (push assistant entendi)
         (with_ss next_step (with_ss (put_lead chave v) w))).
Proof.
  intros Hk Hv Hn. pose proof (field_at_lt _ _ Hk) as Hlt.
  unfold funnel. run_monad.
  change (List.length PERGUNTAS) with total.
  destruct (Nat.ltb_spec (step (ss w)) total); [|lia].
  rewrite Hk, Hv, Hn. reflexivity.
Qed.

Lemma funnel_raised (m : str) (w : world) (chave : string) (e : exn) :
  nth_error KEYS (step (ss w)) = Some chave ->
  valido U chave m = true ->
  normalizar_campo U chave m = Raise e ->
  funnel U XL m w = (Raise e, w).
Proof.
  intros Hk Hv Hn. pose proof (field_at_lt _ _ Hk) as Hlt.
  unfold funnel. run_monad.
  change (List.length PERGUNTAS) with total.
  destruct (Nat.ltb_spec (step (ss w)) total); [|lia].
  rewrite Hk, Hv, Hn. reflexivity.
Qed.

Lemma normalizar_campo_not_halt (chave : string) (m : str) :
  normalizar_campo U chave m <> Halt.
Proof.
  unfold normalizar_campo.
  destruct (String.eqb chave "operacao"); [discriminate|].
  destruct (String.eqb chave "urgencia"); [discriminate|].
  destruct (Dict.mem chave ["metragem"; "quartos"]); [|discriminate].
  destruct (Py.int U (strip m)) as [n|]; [|discriminate].
  destruct (str_int U n); discriminate.
Qed.

Lemma process_eq (raw : str) (now now' : Z) (w : world) :
  process U XL raw now now' w
  = funnel U XL (escape_dollar raw) (arrived raw now now' w).
Proof.
  unfold process, rate_limit, arrived. run_monad.
  destruct (now - prev_question_timestamp (ss w) <? MIN_TIME_BETWEEN_REQUESTS);
    reflexivity.
Qed.

Ltac run_monad_in E :=
  cbv beta iota delta
    [bind ret raise stop session update lift when getitem index
     append_message sleep do_salvar_lead] in E.

Ltac split_on E :=
  match type of E with
  | context [if ?b then _ else _] => destruct b eqn:?
  | context [match ?x with Some _ => _ | None => _ end] => destruct x eqn:?
  end; cbv beta iota in E.

(** Every execution either leaves the funnel alone or hands one non-empty
    message to [process]; before that it may have greeted (only when the
    transcript was empty). *)
Lemma run_cases (i : inputs) (w : world) :
  (messages (ss w) = [] -> step (ss w) = 0%nat) ->
  exists w0 g,
    ((exists o, run U XL COMPANY_NAME COMPANY_BLURB i w = (o, w0))
     \/ exists m, truthy m = true /\
          run U XL COMPANY_NAME COMPANY_BLURB i w
          = process U XL m (in_now i) (in_now' i) w0) /\
    lead (ss w0) = lead (ss w) /\ step (ss w0) = step (ss w) /\
    disk w0 = disk w /\ saved w0 = saved w /\ slept w0 = slept w /\
    prev_question_timestamp (ss w0) = prev_question_timestamp (ss w) /\
    messages (ss w0) = messages (ss w) ++ g /\
    (messages (ss w) <> [] -> g = []).
Proof.
  intros Hinit.
  destruct (run U XL COMPANY_NAME COMPANY_BLURB i w) as [o w'] eqn:E.
  unfold run, script in E. run_monad_in E.
  change (messages (ss (deliver i w))) with (messages (ss w)) in E.
  change (initial_question (ss (deliver i w))) with (in_initial_question i) in E.
  change (selected_suggestion (ss (deliver i w))) with (in_selected_suggestion i) in E.
  destruct (messages (ss w)) as [|m0 ms] eqn:Hm.
  - specialize (Hinit eq_refl).
    assert (Hask : forall w1, step (ss w1) = 0%nat ->
              perguntar_proximo_campo XL w1
              = (Ret tt, with_ss (push assistant (u "Qual é o seu nome completo?")) w1)).
    { intros w1 H1. apply (ask_next w1 "nome"); [rewrite H1|]; reflexivity. }
    change (negb (0 <? Datatypes.length (@nil message))%nat) with true in E.
    rewrite andb_true_r in E.
    repeat (first [ rewrite Hask in E by exact Hinit | split_on E ]).
    all: try (injection E as <- <-).
    all: do 2 eexists; split;
      [ first [ right; eexists; split; [eassumption | symmetry; exact E]
              | left; eexists; reflexivity ]
      | repeat (apply conj; [reflexivity|]); intros H; elim H; reflexivity ].
  - change (negb (0 <? Datatypes.length (m0 :: ms))%nat) with false in E.
    rewrite andb_false_r in E. cbv beta iota in E.
    repeat split_on E.
    all: try (injection E as <- <-).
    all: eexists; exists []; split;
      [ first [ right; eexists; split; [eassumption | symmetry; exact E]
              | left; eexists; reflexivity ]
      | repeat (apply conj; [reflexivity|]); apply conj;
        [ rewrite app_nil_r; exact Hm | reflexivity ] ].
Qed.

Lemma snoc_not_nil {A} (l : list A) (x : A) : l ++ [x] <> [].
Proof. destruct l; discriminate. Qed.

(** What [process] does to the funnel: nothing, or one field stored and the
    step advanced, with the record appended to the spreadsheet exactly when
    that step was the last. *)
Lemma process_effect (raw : str) (now now' : Z) (w : world) :
  let w' := snd (process U XL raw now now' w) in
  messages (ss w') <> [] /\
  ((step (ss w') = step (ss w) /\ lead (ss w') = lead (ss w) /\
    saved w' = saved w /\ disk w' = disk w)
   \/ exists chave v,
        nth_error KEYS (step (ss w)) = Some chave /\
        step (ss w') = S (step (ss w)) /\
        lead (ss w') = Dict.set (lead (ss w)) chave v /\
        saved w'
        = saved w ++ (if (S (step (ss w)) =? total)%nat
                      then [lead (ss w')] else []) /\
        disk w'
        = (if (S (step (ss w)) =? total)%nat
           then snd (salvar_lead XL (lead (ss w')) (disk w)) else disk w)).
Proof.
  cbv zeta. rewrite process_eq.
  set (a := arrived raw now now' w).
  assert (Ha : step (ss a) = step (ss w) /\ lead (ss a) = lead (ss w) /\
               saved a = saved w /\ disk a = disk w /\
               messages (ss a) <> []).
  { unfold a, arrived.
    destruct (now - prev_question_timestamp (ss w) <? MIN_TIME_BETWEEN_REQUESTS);
      repeat (apply conj; [reflexivity|]); apply snoc_not_nil. }
  destruct Ha as (Hs & Hl & Hsv & Hd & Hm). clearbody a.
  destruct (Nat.lt_ge_cases (step (ss a)) total) as [Hlt | Hge].
  - destruct (field_at _ Hlt) as (chave & texto & Hk & Ht).
    destruct (valido U chave (escape_dollar raw)) eqn:Hv.
    + destruct (normalizar_campo U chave (escape_dollar raw)) as [v|e|] eqn:Hn.
      * rewrite (funnel_accepted _ _ _ _ Hk Hv Hn).
        set (b := with_ss (push assistant entendi)
                    (with_ss next_step (with_ss (put_lead chave v) a))).
        assert (Hb : step (ss b) = S (step (ss a))) by reflexivity.
        destruct (Nat.lt_ge_cases (step (ss b)) total) as [Hlt' | Hge'].
        -- destruct (field_at _ Hlt') as (chave' & texto' & Hk' & Ht').
           rewrite (ask_next _ _ _ Hk' Ht').
           split; [apply snoc_not_nil|]. right. exists chave, v.
           rewrite <- Hs, <- Hl, <- Hsv, <- Hd.
           destruct (Nat.eqb_spec (S (step (ss a))) total); [lia|].
           rewrite app_nil_r. repeat (apply conj; [first [exact Hk | reflexivity]|]).
           reflexivity.
        -- rewrite (ask_done _ Hge').
           destruct (writable XL (frame_of_record (lead (ss b))));
             (split; [apply snoc_not_nil|]); right; exists chave, v;
             rewrite <- Hs, <- Hl, <- Hsv, <- Hd;
             (destruct (Nat.eqb_spec (S (step (ss a))) total); [|lia]);
             repeat (apply conj; [first [exact Hk | reflexivity]|]);
             reflexivity.
      * rewrite (funnel_raised _ _ _ _ Hk Hv Hn).
        split; [exact Hm|]. left. auto.
      * elim (normalizar_campo_not_halt _ _ Hn).
    + rewrite (funnel_rejected _ _ _ _ Hk Ht Hv).
      split; [apply snoc_not_nil|]. left. auto.
  - rewrite (funnel_complete _ _ Hge).
    split; [apply snoc_not_nil|]. left. auto.
Qed.

(** An accepted answer: the field is stored, the step advances, and
    [salvar_lead] is called with the record when the step was the last one;
    that call is the only thing that can raise. *)
Lemma process_accepted (raw : str) (now now' : Z) (w : world)
      (chave : string) (v : str) :
  nth_error KEYS (step (ss w)) = Some chave ->
  valido U chave (escape_dollar raw) = true ->
  normalizar_campo U chave (escape_dollar raw) = Ret v ->
  let w' := snd (process U XL raw now now' w) in
  let l' := Dict.set (lead (ss w)) chave v in
  fst (process U XL raw now now' w)
  = (if (S (step (ss w)) =? total)%nat
        && negb (writable XL (frame_of_record l'))
     then Raise IllegalCharacterError else Ret tt) /\
  messages (ss w') <> [] /\
  step (ss w') = S (step (ss w)) /\
  lead (ss w') = l' /\
  saved w' = saved w ++ (if (S (step (ss w)) =? total)%nat then [l'] else []) /\
  disk w' = (if (S (step (ss w)) =? total)%nat
             then snd (salvar_lead XL l' (disk w)) else disk w).
Proof.
  intros Hk Hv Hn. cbv zeta. rewrite process_eq.
  assert (Hk' : nth_error KEYS (step (ss (arrived raw now now' w))) = Some chave).
  { unfold arrived.
    destruct (now - prev_question_timestamp (ss w) <? MIN_TIME_BETWEEN_REQUESTS);
      exact Hk. }
  rewrite (funnel_accepted _ _ _ _ Hk' Hv Hn).
  set (b := with_ss (push assistant entendi)
              (with_ss next_step
                 (with_ss (put_lead chave v) (arrived raw now now' w)))).
  assert (Hb : step (ss b) = S (step (ss w)) /\
               lead (ss b) = Dict.set (lead (ss w)) chave v /\
               saved b = saved w /\ disk b = disk w /\
               messages (ss b) <> []).
  { unfold b, arrived.
    destruct (now - prev_question_timestamp (ss w) <? MIN_TIME_BETWEEN_REQUESTS);
      repeat (apply conj; [reflexivity|]); apply snoc_not_nil. }
  destruct Hb as (Hs & Hl & Hsv & Hd & Hne). clearbody b.
  destruct (Nat.lt_ge_cases (step (ss b)) total) as [Hlt | Hge].
  - destruct (field_at _ Hlt) as (chave' & texto' & Hq & Ht).
    rewrite (ask_next _ _ _ Hq Ht). cbv [fst snd].
    destruct (Nat.eqb_spec (S (step (ss w))) total); [lia|].
    rewrite app_nil_r.
    split; [reflexivity|]. split; [apply snoc_not_nil|].
    split; [exact Hs|]. split; [exact Hl|]. split; [exact Hsv | exact Hd].
  - rewrite (ask_done _ Hge), Hl.
    apply field_at_lt in Hk.
    destruct (Nat.eqb_spec (S (step (ss w))) total); [|lia].
    destruct (writable XL (frame_of_record (Dict.set (lead (ss w)) chave v)));
      cbn [fst snd andb negb];
      (split; [reflexivity|]);
      (split; [first [apply snoc_not_nil | exact Hne]|]);
      (split; [exact Hs|]); (split; [exact Hl|]);
      (split; cbn [saved disk persisted with_ss ss]; rewrite ?Hl;
         [rewrite Hsv | rewrite Hd]; reflexivity).
Qed.

(** [process] always stamps the clock with the second reading, and pauses
    only when the first reading is less than the minimum after the previous
    stamp. *)
Lemma process_clock (raw : str) (now now' : Z) (w : world) :
  let w' := snd (process U XL raw now now' w) in
  let delta := now - prev_question_timestamp (ss w) in
  prev_question_timestamp (ss w') = now' /\
  slept w' = slept w ++ (if delta <? MIN_TIME_BETWEEN_REQUESTS
                         then [Z.max 0 (MIN_TIME_BETWEEN_REQUESTS - delta)]
                         else []).
Proof.
  cbv zeta. rewrite process_eq.
  set (a := arrived raw now now' w).
  assert (Ha : prev_question_timestamp (ss a) = now' /\
               slept a = slept w
                         ++ (if now - prev_question_timestamp (ss w)
                                <? MIN_TIME_BETWEEN_REQUESTS
                             then [Z.max 0 (MIN_TIME_BETWEEN_REQUESTS
                                            - (now - prev_question_timestamp (ss w)))]
                             else [])).
  { unfold a, arrived.
    destruct (now - prev_question_timestamp (ss w) <? MIN_TIME_BETWEEN_REQUESTS);
      split; try reflexivity. rewrite app_nil_r; reflexivity. }
  destruct Ha as [Hp Hsl]. clearbody a.
  destruct (Nat.lt_ge_cases (step (ss a)) total) as [Hlt | Hge].
  - destruct (field_at _ Hlt) as (chave & texto & Hk & Ht).
    destruct (valido U chave (escape_dollar raw)) eqn:Hv.
    + destruct (normalizar_campo U chave (escape_dollar raw)) as [v|e|] eqn:Hn.
      * rewrite (funnel_accepted _ _ _ _ Hk Hv Hn).
        set (b := with_ss (push assistant entendi)
                    (with_ss next_step (with_ss (put_lead chave v) a))).
        destruct (Nat.lt_ge_cases (step (ss b)) total) as [Hlt' | Hge'].
        -- destruct (field_at _ Hlt') as (chave' & texto' & Hk' & Ht').
           rewrite (ask_next _ _ _ Hk' Ht'). split; [exact Hp | exact Hsl].
        -- rewrite (ask_done _ Hge').
           destruct (writable XL _); split; first [exact Hp | exact Hsl].
      * rewrite (funnel_raised _ _ _ _ Hk Hv Hn). split; [exact Hp | exact Hsl].
      * elim (normalizar_campo_not_halt _ _ Hn).
    + rewrite (funnel_rejected _ _ _ _ Hk Ht Hv). split; [exact Hp | exact Hsl].
  - rewrite (funnel_complete _ _ Hge). split; [exact Hp | exact Hsl].
Qed.

(** The same for a whole execution of the script. *)
Lemma run_effect (i : inputs) (w : world) :
  (messages (ss w) = [] -> step (ss w) = 0%nat) ->
  let w' := snd (run U XL COMPANY_NAME COMPANY_BLURB i w) in
  (messages (ss w') = [] -> step (ss w') = 0%nat) /\
  ((step (ss w') = step (ss w) /\ lead (ss w') = lead (ss w) /\
    saved w' = saved w /\ disk w' = disk w)
   \/ exists chave v,
        nth_error KEYS (step (ss w)) = Some chave /\
        step (ss w') = S (step (ss w)) /\
        lead (ss w') = Dict.set (lead (ss w)) chave v /\
        saved w'
        = saved w ++ (if (S (step (ss w)) =? total)%nat
                      then [lead (ss w')] else []) /\
        disk w'
        = (if (S (step (ss w)) =? total)%nat
           then snd (salvar_lead XL (lead (ss w')) (disk w)) else disk w)).
Proof.
  intros Hinit. cbv zeta.
  destruct (run_cases i w Hinit)
    as (w0 & g & Hrun & Hl & Hs & Hd & Hsv & _ & _ & Hm & _).
  destruct Hrun as [[o ->] | (m & _ & ->)].
  - cbv [snd]. split.
    + intros H0. rewrite Hs. apply Hinit.
      rewrite Hm in H0. apply app_eq_nil in H0. tauto.
    + left. auto.
  - pose proof (process_effect m (in_now i) (in_now' i) w0) as [Hne He].
    cbv zeta in Hne, He. split; [intros H0; contradiction|].
    rewrite Hl, Hs, Hd, Hsv in He. exact He.
Qed.

(** *** The invariant of reachable worlds *)

Lemma firstn_snoc_nth {A} (l : list A) (n : nat) (x : A) :
  nth_error l n = Some x -> firstn (S n) l = firstn n l ++ [x].
Proof.
  revert n; induction l as [|y l IH]; intros [|n] H; try discriminate.
  - injection H as ->. destruct l; reflexivity.
  - simpl in H. change (y :: firstn (S n) l = y :: (firstn n l ++ [x])).
    rewrite (IH n H). reflexivity.
Qed.

Lemma nth_not_in_firstn {A} (l : list A) (n : nat) (x : A) :
  NoDup l -> nth_error l n = Some x -> ~ In x (firstn n l).
Proof.
  intros Hnd; revert n; induction Hnd as [|y l Hy Hnd IH]; intros [|n] H;
    try discriminate.
  - intros [].
  - simpl in H. intros [-> | Hin].
    + apply Hy. eapply nth_error_In; exact H.
    + exact (IH n H Hin).
Qed.

Lemma keys_set_fresh {V} (d : Dict.t V) (k : string) (v : V) :
  ~ In k (Dict.keys d) -> Dict.keys (Dict.set d k v) = Dict.keys d ++ [k].
Proof.
  induction d as [|[k' v'] d IH]; intros H; [reflexivity|].
  simpl. destruct (String.eqb_spec k k') as [-> | Hne].
  - elim H. left; reflexivity.
  - simpl. rewrite IH; [reflexivity|]. intros Hin; apply H; right; exact Hin.
Qed.

Lemma keys_unique : NoDup KEYS.
Proof.
  repeat (constructor; [simpl; intuition discriminate|]). constructor.
Qed.

Lemma keys_advance (l : Dict.t str) (n : nat) (chave : string) (v : str) :
  nth_error KEYS n = Some chave ->
  Dict.keys l = firstn n KEYS ->
  Dict.keys (Dict.set l chave v) = firstn (S n) KEYS.
Proof.
  intros Hk Hl.
  rewrite (firstn_snoc_nth _ _ _ Hk), <- Hl.
  apply keys_set_fresh. rewrite Hl.
  exact (nth_not_in_firstn _ _ _ keys_unique Hk).
Qed.

Lemma coherent_fresh (w : world) : ss w = fresh_session -> coherent w.
Proof.
  intros E; unfold coherent; rewrite E; simpl.
  split; [lia | split; [reflexivity | intros _; reflexivity]].
Qed.

Lemma coherent_run (i : inputs) (w : world) :
  coherent w -> coherent (snd (run U XL COMPANY_NAME COMPANY_BLURB i w)).
Proof.
  intros (Hle & Hkeys & Hinit).
  destruct (run_effect i w Hinit) as [Hinit' [(Hs & Hl & _) | He]].
  - unfold coherent. rewrite Hs, Hl.
    split; [exact Hle | split; [exact Hkeys|]].
    intros H0. rewrite <- Hs. exact (Hinit' H0).
  - destruct He as (chave & v & Hk & Hs & Hl & _).
    unfold coherent. rewrite Hs, Hl. split; [|split].
    + apply field_at_lt in Hk. lia.
    + apply keys_advance; assumption.
    + intros H0. apply Hinit' in H0. lia.
Qed.

Lemma coherent_handle (e : event) (w : world) :
  coherent w -> coherent (handle U XL COMPANY_NAME COMPANY_BLURB e w).
Proof.
  destruct e as [|i]; intros H; [|apply coherent_run; exact H].
  apply coherent_fresh; reflexivity.
Qed.

Lemma coherent_handle_all (es : list event) (w : world) :
  coherent w -> coherent (handle_all U XL COMPANY_NAME COMPANY_BLURB es w).
Proof.
  revert w; induction es as [|e es IH]; intros w H; [exact H|].
  apply IH, coherent_handle, H.
Qed.

(** *** One session: executions between two restarts *)

Section Session.

Variable start : world.

Lemma settled_start : ss start = fresh_session -> settled XL start start.
Proof.
  intros E. split; [apply coherent_fresh; exact E|].
  rewrite E; simpl. rewrite app_nil_r. auto.
Qed.

Lemma settled_run (i : inputs) (w : world) :
  settled XL start w -> settled XL start (snd (run U XL COMPANY_NAME COMPANY_BLURB i w)).
Proof.
  intros (Hc & Hsv & Hd).
  pose proof (coherent_run i w Hc) as Hc'.
  destruct Hc as (Hle & Hkeys & Hinit).
  destruct (run_effect i w Hinit) as [_ [(Hs & Hl & Hsv' & Hd') | He]].
  - split; [exact Hc'|]. rewrite Hs, Hl, Hsv', Hd'. auto.
  - destruct He as (chave & v & Hk & Hs & Hl & Hsv' & Hd').
    split; [exact Hc'|]. apply field_at_lt in Hk.
    destruct (Nat.eqb_spec (step (ss w)) total) as [|_]; [lia|].
    rewrite app_nil_r in Hsv. rewrite Hs, Hsv', Hd', Hsv, Hd. auto.
Qed.

Lemma settled_session (l : list inputs) (w : world) :
  settled XL start w ->
  settled XL start (handle_all U XL COMPANY_NAME COMPANY_BLURB (map Run l) w).
Proof.
  revert w; induction l as [|i l IH]; intros w H; [exact H|].
  apply IH, settled_run, H.
Qed.

End Session.

(** *** Executions of a complete funnel *)

Lemma run_complete (i : inputs) (w : world) :
  coherent w -> (total <= step (ss w))%nat ->
  let w' := snd (run U XL COMPANY_NAME COMPANY_BLURB i w) in
  step (ss w') = step (ss w) /\ lead (ss w') = lead (ss w) /\
  saved w' = saved w /\ disk w' = disk w /\
  (messages (ss w') = messages (ss w)
   \/ exists m, messages (ss w')
                = messages (ss w) ++ [(user, m); (assistant, resposta)]).
Proof.
  intros (_ & _ & Hinit) Hge. cbv zeta.
  assert (Hne : messages (ss w) <> []) by (intros H0; apply Hinit in H0; lia).
  destruct (run_cases i w Hinit)
    as (w0 & g & Hrun & Hl & Hs & Hd & Hsv & _ & _ & Hm & Hg).
  rewrite (Hg Hne), app_nil_r in Hm.
  destruct Hrun as [[o ->] | (m & _ & ->)].
  - cbv [snd]. rewrite Hm. auto 6.
  - rewrite process_eq, funnel_complete
      by (unfold arrived;
          destruct (_ <? MIN_TIME_BETWEEN_REQUESTS); cbn; rewrite Hs; exact Hge).
    cbv [snd]. rewrite <- Hl, <- Hs, <- Hd, <- Hsv, <- Hm.
    unfold arrived.
    destruct (_ <? MIN_TIME_BETWEEN_REQUESTS);
      repeat (apply conj; [reflexivity|]);
      right; exists (escape_dollar m); cbn; rewrite <- app_assoc; reflexivity.
Qed.

(** *** Typed answers, one after the other *)

Lemma run_typed (t : Z * Z) (m : str) (w : world) :
  messages (ss w) <> [] -> truthy m = true ->
  handle U XL COMPANY_NAME COMPANY_BLURB (typed_at t m) w
  = snd (process U XL m (fst t) (snd t)
           (deliver {| in_initial_question := None;
                       in_selected_suggestion := None;
                       in_typed := Some m;
                       in_now := fst t; in_now' := snd t |} w)).
Proof.
  intros Hne Hm. destruct t as [now now'].
  unfold handle, typed_at, run, script. run_monad.
  change (messages (ss (deliver _ w))) with (messages (ss w)).
  destruct (messages (ss w)) as [|m0 ms] eqn:E; [contradiction|].
  cbn - [process perguntar_proximo_campo WELCOME_MSG truthy].
  rewrite Hm. cbn - [process perguntar_proximo_campo WELCOME_MSG truthy].
  rewrite Hm. reflexivity.
Qed.

Lemma run_opening (t : Z * Z) (m : str) (w : world) :
  messages (ss w) = [] -> step (ss w) = 0%nat -> truthy m = true ->
  handle U XL COMPANY_NAME COMPANY_BLURB (opening_at t m) w
  = snd (process U XL m (fst t) (snd t)
           (greeted COMPANY_NAME COMPANY_BLURB
              (u "Qual é o seu nome completo?")
              (deliver {| in_initial_question := Some m;
                          in_selected_suggestion := None;
                          in_typed := None;
                          in_now := fst t; in_now' := snd t |} w))).
Proof.
  intros He Hs Hm. destruct t as [now now'].
  unfold handle, opening_at, run, script. run_monad.
  change (messages (ss (deliver _ w))) with (messages (ss w)).
  rewrite He.
  cbn - [process perguntar_proximo_campo WELCOME_MSG truthy u].
  rewrite Hm. cbn - [process perguntar_proximo_campo WELCOME_MSG truthy u].
  rewrite (ask_next _ "nome" (u "Qual é o seu nome completo?"))
    by (first [ cbn [ss with_ss step push deliver]; rewrite Hs; reflexivity
              | reflexivity ]).
  rewrite Hm. reflexivity.
Qed.

Lemma answer_typed (t : Z * Z) (m : str) (w : world) (n : nat)
      (l : Dict.t str) (sv : list (Dict.t str)) (dk : file)
      (chave : string) (v : str) :
  standing w n l sv dk -> messages (ss w) <> [] ->
  nth_error KEYS n = Some chave ->
  truthy m = true ->
  valido U chave (escape_dollar m) = true ->
  normalizar_campo U chave (escape_dollar m) = Ret v ->
  let w' := handle U XL COMPANY_NAME COMPANY_BLURB (typed_at t m) w in
  standing w' (S n) (Dict.set l chave v)
    (sv ++ (if (S n =? total)%nat then [Dict.set l chave v] else []))
    (if (S n =? total)%nat
     then snd (salvar_lead XL (Dict.set l chave v) dk) else dk)
  /\ messages (ss w') <> [].
Proof.
  intros (Hs & Hl & Hsv & Hd) Hne Hk Hm Hv Hn. cbv zeta.
  rewrite (run_typed t m w Hne Hm).
  match goal with
  | |- context [process U XL m ?a ?b ?w0] =>
      destruct (process_accepted m a b w0 chave v) as (_ & H1 & H2 & H3 & H4 & H5);
        [ change (step (ss w0)) with (step (ss w)); rewrite Hs; exact Hk
        | exact Hv | exact Hn | ];
        change (step (ss w0)) with (step (ss w)) in *;
        change (lead (ss w0)) with (lead (ss w)) in *;
        change (saved w0) with (saved w) in *;
        change (disk w0) with (disk w) in *
  end.
  rewrite Hs, Hl, Hsv, Hd in *.
  split; [|exact H1]. unfold standing. auto.
Qed.

Lemma answer_opening (t : Z * Z) (m : str) (w : world) (v : str) :
  ss w = fresh_session ->
  truthy m = true ->
  valido U "nome" (escape_dollar m) = true ->
  normalizar_campo U "nome" (escape_dollar m) = Ret v ->
  let w' := handle U XL COMPANY_NAME COMPANY_BLURB (opening_at t m) w in
  standing w' 1 [("nome", v)] (saved w) (disk w) /\ messages (ss w') <> [].
Proof.
  intros E Hm Hv Hn. cbv zeta.
  rewrite (run_opening t m w) by (try rewrite E; first [reflexivity | exact Hm]).
  match goal with
  | |- context [process U XL m ?a ?b ?w0] =>
      destruct (process_accepted m a b w0 "nome" v) as (_ & H1 & H2 & H3 & H4 & H5);
        [ change (step (ss w0)) with (step (ss w)); rewrite E; reflexivity
        | exact Hv | exact Hn | ];
        change (step (ss w0)) with (step (ss w)) in *;
        change (lead (ss w0)) with (lead (ss w)) in *;
        change (saved w0) with (saved w) in *;
        change (disk w0) with (disk w) in *
  end.
  rewrite E in *. cbn in H2, H3, H4, H5. rewrite app_nil_r in H4.
  split; [|exact H1]. unfold standing. auto.
Qed.

(** *** Statements about the funnel *)

(** C1 (as amended).  In a session, that is, in any sequence of executions
    that starts from the state left by initialisation or by Restart,
    [salvar_lead] has been called exactly once, with the completed record, if
    the funnel is complete, and not at all otherwise, however many messages
    follow the completion; the file is as that single call left it, and when
    the record holds only text the spreadsheet engine can write, it is a
    workbook whose last row is the record (failures of the operating system
    apart).  The script gets this from its
    control flow: after completion it never calls [perguntar_proximo_campo]
    again. *)
Theorem append_once_per_session (start : world) (l : list inputs) :
  ss start = fresh_session ->
  let w := handle_all U XL COMPANY_NAME COMPANY_BLURB (map Run l) start in
  saved w = saved start
            ++ (if (step (ss w) =? total)%nat then [lead (ss w)] else []) /\
  disk w = (if (step (ss w) =? total)%nat
            then snd (salvar_lead XL (lead (ss w)) (disk start))
            else disk start) /\
  (step (ss w) = total ->
   writable XL (frame_of_record (lead (ss w))) = true ->
   exists df,
     disk w = Workbook df /\
     forall k, frame_cell df (List.length (rows df) - 1) k
               = cell_of (Dict.get (lead (ss w)) k)).
Proof.
  intros E. cbv zeta.
  destruct (settled_session start l start (settled_start start E))
    as (_ & Hsv & Hd).
  split; [exact Hsv|]. split; [exact Hd|].
  intros H9 Hw. rewrite Hd, H9. cbn [Nat.eqb].
  destruct (salvar_lead_last_row XL _ (disk start) Hw) as (df & Ed & Hrow).
  exists df. rewrite Ed. split; [reflexivity | exact Hrow].
Qed.

(** C2.  While a field other than the price range is being asked, an answer
    that the field's validator rejects leaves the record and the step as
    they were (and the spreadsheet untouched), and adds to the transcript
    the user's bubble, then the warning sign with the field's configured
    error text, then the same question again.  The validator sees the
    message as line 235 leaves it. *)
Theorem rejected_answer_keeps_state (w : world) (raw : str) (now now' : Z)
        (chave : string) :
  nth_error KEYS (step (ss w)) = Some chave ->
  chave <> "faixa_preco" ->
  valido U chave (escape_dollar raw) = false ->
  exists erro texto w',
    Dict.get mensagens_erro chave = Some erro /\
    Dict.get PERGUNTAS chave = Some texto /\
    process U XL raw now now' w = (Ret tt, w') /\
    lead (ss w') = lead (ss w) /\ step (ss w') = step (ss w) /\
    disk w' = disk w /\ saved w' = saved w /\
    messages (ss w')
    = messages (ss w)
      ++ [(user, escape_dollar raw); (assistant, u "⚠️ " ++ erro);
          (assistant, texto)].
Proof.
  intros Hk Hp Hv.
  assert (He : exists erro, Dict.get mensagens_erro chave = Some erro).
  { pose proof (field_at_lt _ _ Hk) as Hlt. revert Hk Hp.
    generalize (step (ss w)) Hlt. intros n Hn.
    do 9 (destruct n as [|n];
          [intros Hk Hp; injection Hk as <-;
           first [eexists; reflexivity | elim Hp; reflexivity]|]).
    lia. }
  destruct He as [erro He].
  destruct (field_at _ (field_at_lt _ _ Hk)) as (c & texto & Hk' & Ht).
  rewrite Hk in Hk'; injection Hk' as <-.
  exists erro, texto. eexists.
  split; [exact He|]. split; [exact Ht|].
  rewrite process_eq.
  assert (Hk' : nth_error KEYS (step (ss (arrived raw now now' w))) = Some chave).
  { unfold arrived.
    destruct (now - prev_question_timestamp (ss w) <? MIN_TIME_BETWEEN_REQUESTS);
      exact Hk. }
  rewrite (funnel_rejected _ _ _ _ Hk' Ht Hv).
  unfold Dict.get_default. rewrite He.
  split; [reflexivity|]. unfold arrived.
  destruct (now - prev_question_timestamp (ss w) <? MIN_TIME_BETWEEN_REQUESTS);
    repeat (apply conj; [reflexivity|]);
    cbn [messages ss with_ss push stamp slept_for]; rewrite <- !app_assoc;
    reflexivity.
Qed.

(** C5.  In every world reachable from a fresh session by any sequence of
    events, the step is at most the number of fields and the record holds
    exactly the first [step] fields, so the step equals the number of keys
    of the record; and once the step has reached the number of fields, an
    execution changes neither step nor record nor spreadsheet, and adds to
    the transcript nothing, or the user's bubble and the closing
    acknowledgement, never a question. *)
Theorem step_counts_record_keys (d : file) (es : list event) :
  let w := handle_all U XL COMPANY_NAME COMPANY_BLURB es (fresh_world d) in
  (step (ss w) <= total)%nat /\
  List.length (lead (ss w)) = step (ss w) /\
  Dict.keys (lead (ss w)) = firstn (step (ss w)) KEYS /\
  ((total <= step (ss w))%nat ->
   forall i,
     let w' := snd (run U XL COMPANY_NAME COMPANY_BLURB i w) in
     step (ss w') = step (ss w) /\ lead (ss w') = lead (ss w) /\
     saved w' = saved w /\ disk w' = disk w /\
     (messages (ss w') = messages (ss w)
      \/ exists m, messages (ss w')
                   = messages (ss w) ++ [(user, m); (assistant, resposta)])).
Proof.
  cbv zeta.
  pose proof (coherent_handle_all es (fresh_world d)
                (coherent_fresh (fresh_world d) eq_refl)) as Hc.
  set (w := handle_all U XL COMPANY_NAME COMPANY_BLURB es (fresh_world d)) in *.
  pose proof Hc as (Hle & Hkeys & _).
  split; [exact Hle|]. split; [|split; [exact Hkeys|]].
  - unfold Dict.keys in Hkeys.
    rewrite <- (length_map fst (lead (ss w))), Hkeys, length_firstn.
    change (List.length (map fst PERGUNTAS)) with total. lia.
  - intros Hge i. apply run_complete; assumption.
Qed.


End Funnel.


(** ** The normaliser applied to its own output *)

Lemma str_in_cases (x : str) (l : list str) :
  str_in x l = true -> In x l.
Proof.
  unfold str_in. rewrite existsb_exists.
  intros (y & Hy & E). apply str_eqb_eq in E. subst; exact Hy.
Qed.

(** C4 (as amended).  For every field key and every answer its validator
    accepts and the normaliser turns into a value, normalising that value
    again gives it back, except on the operation field for answers that trim
    to "1": their value "compra" normalises to "aluguel". *)
Theorem normalizar_campo_idempotent (U : unicode_data) (chave : string)
        (x y : str) :
  unicode_ok U ->
  valido U chave x = true ->
  normalizar_campo U chave x = Ret y ->
  (chave = "operacao" -> strip x <> u "1") ->
  normalizar_campo U chave y = Ret y.
Proof.
  intros HU Hv Hn Hop. unfold normalizar_campo in *.
  destruct (String.eqb_spec chave "operacao") as [-> | _].
  - destruct (str_eqb (strip x) (u "1")) eqn:E.
    + apply str_eqb_eq in E. elim (Hop eq_refl E).
    + injection Hn as <-. reflexivity.
  - destruct (String.eqb_spec chave "urgencia") as [-> | _].
    + change (valido U "urgencia" x) with (validar_urgencia U x) in Hv.
      unfold validar_urgencia in Hv. apply str_in_cases in Hv.
      assert (Hy : In y [u "alta"; u "media"; u "baixa"]).
      { destruct Hv as [E | [E | [E | [E | []]]]]; rewrite <- E in Hn;
          injection Hn as <-; vm_compute; auto. }
      assert (Hfix : forall s, In s [u "alta"; u "media"; u "baixa"] ->
                     lower U (strip s) = s).
      { intros s [<- | [<- | [<- | []]]];
          (rewrite strip_no_space by reflexivity);
          apply (lower_fixes_ascii U HU); reflexivity. }
      rewrite (Hfix y Hy).
      destruct Hy as [<- | [<- | [<- | []]]]; reflexivity.
    + destruct (Dict.mem chave ["metragem"; "quartos"]).
      * destruct (Py.int U (strip x)) as [n|] eqn:Hi; [|discriminate].
        rewrite (str_int_after_int U _ _ Hi) in Hn. injection Hn as <-.
        rewrite strip_str_of_int.
        rewrite (int_str_of_int U n (int_within_limit U _ _ Hi)).
        rewrite (str_int_after_int U _ _ (int_str_of_int U n
                                            (int_within_limit U _ _ Hi))).
        reflexivity.
      * injection Hn as <-. rewrite strip_idem. reflexivity.
Qed.

(** ** A complete conversation *)

Section RoundTrip.

Variable U : unicode_data.
Variable XL : excel.
Hypothesis HU : unicode_ok U.
Variables COMPANY_NAME COMPANY_BLURB : str.

Lemma accepts_lowercase_word (chave : string) (m : str) (l : list str) :
  valido U chave m = str_in (lower U (strip m)) l ->
  forallb ascii_lowercase_safe (strip m) = true ->
  str_in (strip m) l = true ->
  valido U chave m = true.
Proof.
  intros -> Hs Hin. rewrite (lower_fixes_ascii U HU _ Hs). exact Hin.
Qed.

Ltac by_computation := vm_compute; reflexivity.

Ltac answer_next S M chave m v t S' M' :=
  match goal with
  | |- context [handle U XL ?N ?B (typed_at t m) ?w] =>
      destruct (answer_typed U XL N B t m w _ _ _ _ chave v S M)
        as [S' M'];
      [ by_computation | by_computation | | | ];
      [ try by_computation .. | ];
      [ ..
      | let w' := fresh "w" in
        set (w' := handle U XL N B (typed_at t m) w) in *;
        clearbody w'; clear S M ]
  end.

(** C3.  From a fresh session, whatever the company settings, the clock
    readings, the spreadsheet library and the state of the spreadsheet, the
    nine answers of the example, typed in order, leave the step at the number
    of fields and the record as stated, and pass that record, once, to
    [salvar_lead]; when there was no file, the call returns and the workbook
    holds that one row under the nine field names, for every engine that can
    write these texts, openpyxl among them. *)
Theorem ana_round_trip (clock : nat -> Z * Z) (d : file) :
  let w := handle_all U XL COMPANY_NAME COMPANY_BLURB
             (conversation clock ana_answers) (fresh_world d) in
  let sheet :=
    {| columns := ["nome"; "telefone"; "email"; "operacao"; "tipo_imovel";
                   "metragem"; "quartos"; "faixa_preco"; "urgencia"];
       rows := [[Text (u "Ana Silva"); Text (u "11987654321");
                 Text (u "ana@ex.com"); Text (u "compra"); Text (u "casa");
                 Text (u "80"); Text (u "2"); Text (u "até 300 mil");
                 Text (u "alta")]] |} in
  lead (ss w) = ana_record /\
  step (ss w) = 9%nat /\
  saved w = [ana_record] /\
  disk w = snd (salvar_lead XL ana_record d) /\
  (writable XL (frame_of_record ana_record) = true ->
   salvar_lead XL ana_record Missing = (Ret tt, Workbook sheet)) /\
  salvar_lead xlsx ana_record Missing = (Ret tt, Workbook sheet).
Proof.
  cbv zeta.
  cbv [handle_all conversation ana_answers answers_from fold_left].
  destruct (answer_opening U XL COMPANY_NAME COMPANY_BLURB (clock 0%nat)
              (u "Ana Silva") (fresh_world d) (u "Ana Silva") eq_refl)
    as [S1 M1]; [by_computation ..|].
  set (w1 := handle U XL _ _ (opening_at _ _) _) in *. clearbody w1.
  cbn [saved disk fresh_world] in S1.
  answer_next S1 M1 "telefone" (u "11987654321") (u "11987654321")
              (clock 1%nat) S2 M2.
  { apply (validar_telefone_ascii U _ HU); by_computation. }
  answer_next S2 M2 "email" (u "ana@ex.com") (u "ana@ex.com")
              (clock 2%nat) S3 M3.
  answer_next S3 M3 "operacao" (u "1") (u "compra") (clock 3%nat) S4 M4.
  answer_next S4 M4 "tipo_imovel" (u "casa") (u "casa") (clock 4%nat) S5 M5.
  { apply (accepts_lowercase_word _ _ [u "casa"; u "apartamento"; u "outro"]);
      by_computation. }
  answer_next S5 M5 "metragem" (u "80") (u "80") (clock 5%nat) S6 M6.
  { apply (validar_numero_ascii U _ HU); by_computation. }
  answer_next S6 M6 "quartos" (u "2") (u "2") (clock 6%nat) S7 M7.
  { apply (validar_numero_ascii U _ HU); by_computation. }
  answer_next S7 M7 "faixa_preco" (u "até 300 mil") (u "até 300 mil")
              (clock 7%nat) S8 M8.
  answer_next S8 M8 "urgencia" (u "alta") (u "alta") (clock 8%nat) S9 M9.
  { apply (accepts_lowercase_word _ _
             [u "alta"; u "media"; u "média"; u "baixa"]); by_computation. }
  { unfold normalizar_campo.
    change (strip (escape_dollar (u "alta"))) with (u "alta").
    rewrite (lower_fixes_ascii U HU (u "alta")) by reflexivity.
    reflexivity. }
  destruct S9 as (Hs & Hl & Hsv & Hd).
  rewrite Hs, Hl, Hsv, Hd.
  repeat (apply conj; [by_computation|]).
  split; [|by_computation].
  intros Hw. unfold salvar_lead, to_excel. cbn [path_exists]. rewrite Hw.
  reflexivity.
Qed.

End RoundTrip.

(** ** Answers on which the script departs from its description *)

(** C6, at the answer "²" (U+00B2) to the area question: [str.isdigit]
    accepts the superscript, [int] does not, and the [ValueError] leaves the
    script from line 261 with the step and the record as they were. *)
Theorem superscript_two_raises :
  let w := after_answers 5 (u "80") in
  let before := after_answers 4 (u "casa") in
  let i := {| in_initial_question := None; in_selected_suggestion := None;
              in_typed := Some (u "²");
              in_now := fst (steady_clock 5); in_now' := snd (steady_clock 5) |} in
  nth_error (Dict.keys PERGUNTAS) (step (ss before)) = Some "metragem" /\
  validar_numero latin1 (u "²") = true /\
  normalizar_campo latin1 "metragem" (u "²") = Raise ValueError /\
  fst (run latin1 xlsx [] [] i before) = Raise ValueError /\
  step (ss (snd (run latin1 xlsx [] [] i before))) = step (ss before) /\
  lead (ss (snd (run latin1 xlsx [] [] i before))) = lead (ss before) /\
  step (ss w) = 6%nat.
Proof. vm_compute. repeat split. Qed.

(** C7, at the answer "Casa" to the property-type question: the validator
    accepts it, its lower-cased trimmed form is "casa", and the record
    receives "Casa". *)
Theorem capitalised_type_stored_as_typed :
  let w := after_answers 4 (u "Casa") in
  validar_tipo_imovel latin1 (u "Casa") = true /\
  lower latin1 (strip (u "Casa")) = u "casa" /\
  step (ss w) = 5%nat /\
  Dict.get (lead (ss w)) "tipo_imovel" = Some (u "Casa") /\
  u "Casa" <> u "casa".
Proof. vm_compute. repeat split. discriminate. Qed.

(** C8, at the answer "R$ 300 mil" to the price question: it is accepted,
    and the record receives the text with a backslash before the dollar
    sign, not the trimmed answer. *)
Theorem price_stored_with_backslash :
  let w := after_answers 7 (u "R$ 300 mil") in
  valido latin1 "faixa_preco" (escape_dollar (u "R$ 300 mil")) = true /\
  step (ss w) = 8%nat /\
  Dict.get (lead (ss w)) "faixa_preco" = Some (u "R\$ 300 mil") /\
  strip (u "R$ 300 mil") = u "R$ 300 mil" /\
  u "R\$ 300 mil" <> u "R$ 300 mil".
Proof. vm_compute. repeat split. discriminate. Qed.

(** C10, on two leads saved one after the other, and on a lead whose name
    holds a vertical tab.  The first lead is written as text: its telephone
    is the text "01987654321" and its price range the text "n/a".  Saving
    the second lead reads the sheet back, and [pd.read_excel] types the
    columns again: the first row is rewritten with the telephone as the
    number 1987654321, the area and the bedrooms as numbers, and the price
    range empty.  The name with the tab is accepted by the name validator,
    and writing its record raises, whether the store is absent or
    unreadable: the store is neither created nor overwritten with it. *)
Theorem reread_changes_stored_rows :
  let names := ["nome"; "telefone"; "email"; "operacao"; "tipo_imovel";
                "metragem"; "quartos"; "faixa_preco"; "urgencia"] in
  let w1 := handle_all latin1 xlsx [] [] (conversation steady_clock zoe_answers)
              (fresh_world Missing) in
  let w2 := handle_all latin1 xlsx [] []
              (Restart :: conversation steady_clock ana_answers) w1 in
  saved w2 = [zoe_record; ana_record] /\
  disk w1
  = Workbook
      {| columns := names;
         rows := [[Text (u "Zoe Reis"); Text (u "01987654321");
                   Text (u "zoe@ex.com"); Text (u "aluguel"); Text (u "outro");
                   Text (u "50"); Text (u "3"); Text (u "n/a");
                   Text (u "baixa")]] |} /\
  disk w2
  = Workbook
      {| columns := names;
         rows := [[Text (u "Zoe Reis"); Int 1987654321;
                   Text (u "zoe@ex.com"); Text (u "aluguel"); Text (u "outro");
                   Int 50; Int 3; NaN; Text (u "baixa")];
                  [Text (u "Ana Silva"); Text (u "11987654321");
                   Text (u "ana@ex.com"); Text (u "compra"); Text (u "casa");
                   Text (u "80"); Text (u "2"); Text (u "até 300 mil");
                   Text (u "alta")]] |} /\
  validar_nome tab_name = true /\
  fst (salvar_lead xlsx tab_record Missing) = Raise IllegalCharacterError /\
  fst (salvar_lead xlsx tab_record Unreadable) = Raise IllegalCharacterError.
Proof. vm_compute. repeat split. Qed.

(** ** Counterexamples to the statements as first written *)

(** C1: called once more on a complete funnel, [perguntar_proximo_campo]
    appends the record a second time. *)
Lemma prompt_again_appends_again :
  let w := handle_all latin1 xlsx [] [] (conversation steady_clock ana_answers)
             (fresh_world Missing) in
  let w' := snd (perguntar_proximo_campo xlsx w) in
  step (ss w) = 9%nat /\
  saved w = [ana_record] /\
  saved w' = [ana_record; ana_record] /\
  option_map (fun df => List.length (rows df))
    (match disk w' with Workbook df => Some df | _ => None end) = Some 2%nat.
Proof. vm_compute. repeat split. Qed.

(** C4: "1" is a valid answer to the operation question and normalises to
    "compra", which normalises to "aluguel". *)
Lemma operacao_not_idempotent :
  valido latin1 "operacao" (u "1") = true /\
  normalizar_campo latin1 "operacao" (u "1") = Ret (u "compra") /\
  normalizar_campo latin1 "operacao" (u "compra") = Ret (u "aluguel") /\
  normalizar_campo latin1 "operacao" (u "compra") <> Ret (u "compra").
Proof. vm_compute. repeat split. discriminate. Qed.

(** ** Instances *)

Lemma append_once_per_session_witness :
  ss (fresh_world Missing) = fresh_session /\
  let w := handle_all latin1 xlsx [] [] (map Run ana_inputs)
             (fresh_world Missing) in
  saved w = saved (fresh_world Missing)
            ++ (if (step (ss w) =? 9)%nat then [lead (ss w)] else []) /\
  disk w = (if (step (ss w) =? 9)%nat
            then snd (salvar_lead xlsx (lead (ss w))
                        (disk (fresh_world Missing)))
            else disk (fresh_world Missing)) /\
  (step (ss w) = 9%nat ->
   writable xlsx (frame_of_record (lead (ss w))) = true ->
   exists df,
     disk w = Workbook df /\
     forall k, frame_cell df (List.length (rows df) - 1) k
               = cell_of (Dict.get (lead (ss w)) k)).
Proof.
  split; [reflexivity|].
  apply (append_once_per_session latin1 xlsx [] [] (fresh_world Missing)
           ana_inputs).
  reflexivity.
Defined.

Lemma rejected_answer_keeps_state_witness :
  nth_error (Dict.keys PERGUNTAS) (step (ss (fresh_world Missing))) = Some "nome" /\
  "nome" <> "faixa_preco" /\
  valido latin1 "nome" (escape_dollar (u "123")) = false /\
  exists erro texto w',
    Dict.get mensagens_erro "nome" = Some erro /\
    Dict.get PERGUNTAS "nome" = Some texto /\
    process latin1 xlsx (u "123") 5 6 (fresh_world Missing) = (Ret tt, w') /\
    lead (ss w') = lead (ss (fresh_world Missing)) /\
    step (ss w') = step (ss (fresh_world Missing)) /\
    disk w' = disk (fresh_world Missing) /\
    saved w' = saved (fresh_world Missing) /\
    messages (ss w')
    = messages (ss (fresh_world Missing))
      ++ [(user, escape_dollar (u "123")); (assistant, u "⚠️ " ++ erro);
          (assistant, texto)].
Proof.
  split; [reflexivity|]. split; [discriminate|]. split; [reflexivity|].
  apply (rejected_answer_keeps_state latin1 xlsx (fresh_world Missing) (u "123") 5 6
           "nome"); [reflexivity | discriminate | reflexivity].
Defined.

Lemma normalizar_campo_idempotent_witness :
  unicode_ok latin1 /\
  valido latin1 "urgencia" (u " MÉDIA ") = true /\
  normalizar_campo latin1 "urgencia" (u " MÉDIA ") = Ret (u "media") /\
  ("urgencia" = "operacao" -> strip (u " MÉDIA ") <> u "1") /\
  normalizar_campo latin1 "urgencia" (u "media") = Ret (u "media").
Proof.
  split; [exact latin1_ok|]. split; [reflexivity|]. split; [reflexivity|].
  split; [discriminate|].
  apply (normalizar_campo_idempotent latin1 "urgencia" (u " MÉDIA ") (u "media"));
    [exact latin1_ok | reflexivity | reflexivity | discriminate].
Defined.

Lemma step_counts_record_keys_witness :
  let w := handle_all latin1 xlsx [] [] (map Run ana_inputs) (fresh_world Missing) in
  (9 <= step (ss w))%nat /\
  forall i,
    let w' := snd (run latin1 xlsx [] [] i w) in
    step (ss w') = step (ss w) /\ lead (ss w') = lead (ss w) /\
    saved w' = saved w /\ disk w' = disk w /\
    (messages (ss w') = messages (ss w)
     \/ exists m, messages (ss w')
                  = messages (ss w) ++ [(user, m); (assistant, resposta)]).
Proof.
  cbv zeta.
  destruct (step_counts_record_keys latin1 xlsx [] [] Missing (map Run ana_inputs))
    as (_ & _ & _ & H).
  assert (Hge : (9 <= step (ss (handle_all latin1 xlsx [] [] (map Run ana_inputs)
                                  (fresh_world Missing))))%nat)
    by (vm_compute; repeat constructor).
  split; [exact Hge | exact (H Hge)].
Defined.


Lemma ana_round_trip_witness :
  unicode_ok latin1 /\
  let w := handle_all latin1 xlsx (u "Imobiliária XYZ")
             (u "A melhor escolha para sua casa nova!")
             (conversation steady_clock ana_answers) (fresh_world Missing) in
  lead (ss w) = ana_record /\ step (ss w) = 9%nat /\ saved w = [ana_record].
Proof.
  split; [exact latin1_ok|]. cbv zeta.
  destruct (ana_round_trip latin1 xlsx latin1_ok (u "Imobiliária XYZ")
              (u "A melhor escolha para sua casa nova!") steady_clock Missing)
    as (H1 & H2 & H3 & _).
  split; [exact H1 | split; [exact H2 | exact H3]].
Defined.

(** * Further properties of the code *)

(** ** Regular expressions: the matcher decides the denotation *)

Lemma matches_cat_inv (r1 r2 : regex) (s : str) :
  matches (Cat r1 r2) s ->
  exists s1 s2, s = s1 ++ s2 /\ matches r1 s1 /\ matches r2 s2.
Proof. intros H; inversion H; subst; eauto. Qed.

Lemma matches_alt_inv (r1 r2 : regex) (s : str) :
  matches (Alt r1 r2) s -> matches r1 s \/ matches r2 s.
Proof. intros H; inversion H; subst; auto. Qed.

Lemma matches_class_inv (p : char -> bool) (s : str) :
  matches (Class p) s -> exists c, s = [c] /\ p c = true.
Proof. intros H; inversion H; subst; eauto. Qed.

Lemma nullable_matches (r : regex) : nullable r = true <-> matches r [].
Proof.
  induction r; simpl.
  - split; [discriminate | intros H; inversion H].
  - split; [intros _; constructor | reflexivity].
  - split; [discriminate | intros H; inversion H].
  - rewrite andb_true_iff, IHr1, IHr2. split.
    + intros [H1 H2]. exact (matches_cat _ _ [] [] H1 H2).
    + intros H. apply matches_cat_inv in H.
      destruct H as (s1 & s2 & E & H1 & H2).
      symmetry in E. apply app_eq_nil in E. destruct E; subst. auto.
  - rewrite orb_true_iff, IHr1, IHr2. split.
    + intros [H | H]; [apply matches_alt_l | apply matches_alt_r]; exact H.
    + apply matches_alt_inv.
  - split; [intros _; constructor | reflexivity].
Qed.

Lemma matches_star_cons (r : regex) (c : char) (s : str) :
  matches (Star r) (c :: s) ->
  exists s1 s2, s = s1 ++ s2 /\ matches r (c :: s1) /\ matches (Star r) s2.
Proof.
  intros H. remember (Star r) as q eqn:Eq. remember (c :: s) as t eqn:Et.
  revert s Et. induction H; intros s0 Et; try discriminate.
  injection Eq as ->.
  destruct s1 as [|c1 s1].
  - simpl in Et. apply IHmatches2; [reflexivity | exact Et].
  - simpl in Et. injection Et as -> <-. exists s1, s2. auto.
Qed.

Lemma deriv_matches (r : regex) (c : char) (s : str) :
  matches (deriv c r) s <-> matches r (c :: s).
Proof.
  revert s; induction r; intros s; simpl.
  - split; intros H; inversion H.
  - split; intros H; inversion H.
  - destruct (p c) eqn:E; split; intros H.
    + inversion H; subst. constructor; exact E.
    + inversion H; subst. constructor.
    + inversion H.
    + inversion H; subst. congruence.
  - assert (Hcat : matches (Cat (deriv c r1) r2) s
                   <-> exists s1 s2, s = s1 ++ s2 /\ matches r1 (c :: s1)
                                     /\ matches r2 s2).
    { split.
      - intros H. apply matches_cat_inv in H.
        destruct H as (s1 & s2 & -> & H1 & H2).
        exists s1, s2. rewrite <- IHr1. auto.
      - intros (s1 & s2 & -> & H1 & H2). constructor; [apply IHr1|]; assumption. }
    assert (Hsplit : matches (Cat r1 r2) (c :: s)
                     <-> (exists s1 s2, s = s1 ++ s2 /\ matches r1 (c :: s1)
                                        /\ matches r2 s2)
                         \/ (matches r1 [] /\ matches r2 (c :: s))).
    { split.
      - intros H. apply matches_cat_inv in H.
        destruct H as (s1 & s2 & E & H1 & H2).
        destruct s1 as [|c1 s1]; simpl in E.
        + right. subst. auto.
        + injection E as -> ->. left. exists s1, s2. auto.
      - intros [(s1 & s2 & -> & H1 & H2) | [H1 H2]].
        + exact (matches_cat _ _ (c :: s1) s2 H1 H2).
        + exact (matches_cat _ _ [] (c :: s) H1 H2). }
    rewrite Hsplit. destruct (nullable r1) eqn:En.
    + split.
      * intros H. apply matches_alt_inv in H. destruct H as [H | H].
        -- left. apply Hcat. assumption.
        -- right. split; [apply nullable_matches; exact En | apply IHr2; assumption].
      * intros [H | [_ H]].
        -- apply matches_alt_l, Hcat, H.
        -- apply matches_alt_r, IHr2, H.
    + rewrite Hcat. split; [auto|].
      intros [H | [H _]]; [exact H|].
      apply nullable_matches in H. congruence.
  - split; intros H.
    + apply matches_alt_inv in H.
      destruct H; [apply matches_alt_l, IHr1 | apply matches_alt_r, IHr2];
        assumption.
    + apply matches_alt_inv in H.
      destruct H; [apply matches_alt_l, IHr1 | apply matches_alt_r, IHr2];
        assumption.
  - split; intros H.
    + apply matches_cat_inv in H. destruct H as (s1 & s2 & -> & H1 & H2).
      apply IHr in H1. exact (matches_star_app _ (c :: s1) s2 H1 H2).
    + apply matches_star_cons in H. destruct H as (s1 & s2 & -> & H1 & H2).
      constructor; [apply IHr|]; assumption.
Qed.

Lemma fullmatch_matches (r : regex) (s : str) :
  fullmatch r s = true <-> matches r s.
Proof.
  unfold fullmatch. revert r; induction s as [|c s IH]; intros r; simpl.
  - apply nullable_matches.
  - rewrite IH. apply deriv_matches.
Qed.

Lemma matches_star_class (p : char -> bool) (s : str) :
  matches (Star (Class p)) s <-> forallb p s = true.
Proof.
  split.
  - intros H. remember (Star (Class p)) as q eqn:Eq.
    induction H; try discriminate; [reflexivity|].
    injection Eq as ->. apply matches_class_inv in H.
    destruct H as (c & -> & Hc). simpl. rewrite Hc. apply IHmatches2. reflexivity.
  - induction s as [|c s IH]; simpl; [intros _; constructor|].
    rewrite andb_true_iff. intros [Hc Hs].
    apply (matches_star_app _ [c] s); [constructor; exact Hc | exact (IH Hs)].
Qed.

Lemma matches_plus_class (p : char -> bool) (s : str) :
  matches (plus (Class p)) s <-> s <> [] /\ forallb p s = true.
Proof.
  unfold plus. split.
  - intros H. apply matches_cat_inv in H. destruct H as (s1 & s2 & -> & H1 & H2).
    apply matches_class_inv in H1. destruct H1 as (c & -> & Hc).
    apply matches_star_class in H2. simpl. rewrite Hc, H2.
    split; [discriminate | reflexivity].
  - intros [Hne H]. destruct s as [|c s]; [contradiction|].
    simpl in H. apply andb_true_iff in H. destruct H as [Hc Hs].
    apply (matches_cat _ _ [c] s); [constructor; exact Hc|].
    apply matches_star_class; exact Hs.
Qed.

(** ** What the validators accept *)

(** X1.  [validar_telefone] accepts exactly the strings of eleven decimal
    characters; nothing is trimmed first. *)
Theorem validar_telefone_spec (U : unicode_data) (s : str) :
  validar_telefone U s = true
  <-> List.length s = 11%nat /\ forallb (isdecimal_char U) s = true.
Proof.
  unfold validar_telefone, re_d. rewrite fullmatch_times_class, andb_true_iff.
  rewrite Nat.eqb_eq. reflexivity.
Qed.

Lemma email_regex_parts (s : str) :
  matches (Cat (plus (Class email_char))
             (Cat re_at
                (Cat (plus (Class email_char))
                   (Cat re_dot (plus (Class email_char)))))) s
  <-> exists l d t,
        s = l ++ 64 :: d ++ 46 :: t /\
        l <> [] /\ d <> [] /\ t <> [] /\
        forallb email_char l = true /\ forallb email_char d = true /\
        forallb email_char t = true.
Proof.
  split.
  - intros H.
    apply matches_cat_inv in H. destruct H as (l & r1 & -> & Hl & H).
    apply matches_cat_inv in H. destruct H as (a & r2 & -> & Ha & H).
    apply matches_cat_inv in H. destruct H as (d & r3 & -> & Hd & H).
    apply matches_cat_inv in H. destruct H as (o & t & -> & Ho & Ht).
    apply matches_class_inv in Ha. destruct Ha as (c & -> & Hc).
    apply matches_class_inv in Ho. destruct Ho as (c' & -> & Hc').
    apply Z.eqb_eq in Hc, Hc'. subst.
    apply matches_plus_class in Hl, Hd, Ht.
    exists l, d, t. simpl. tauto.
  - intros (l & d & t & -> & Hl & Hd & Ht & Fl & Fd & Ft).
    apply matches_cat; [apply matches_plus_class; auto|].
    apply (matches_cat _ _ [64]); [constructor; reflexivity|].
    apply matches_cat; [apply matches_plus_class; auto|].
    apply (matches_cat _ _ [46]); [constructor; reflexivity|].
    apply matches_plus_class; auto.
Qed.

(** X2.  [validar_email] accepts exactly the strings made of a local part,
    an at sign, a domain, a dot and an ending, each part non-empty and free
    of at signs and whitespace; nothing is trimmed first. *)
Theorem validar_email_spec (s : str) :
  validar_email s = true
  <-> exists l d t,
        s = l ++ 64 :: d ++ 46 :: t /\
        l <> [] /\ d <> [] /\ t <> [] /\
        forallb email_char l = true /\ forallb email_char d = true /\
        forallb email_char t = true.
Proof.
  unfold validar_email. rewrite fullmatch_matches.
  change re_not_at_space with (Class email_char).
  apply email_regex_parts.
Qed.

Lemma email_char_no_space (c : char) :
  email_char c = true -> negb (isspace c) = true.
Proof.
  unfold email_char. rewrite negb_true_iff, orb_false_iff.
  intros [_ ->]. reflexivity.
Qed.

(** A text the e-mail validator accepts has no whitespace, so the
    normaliser's trimming leaves it as it is, and it has one at sign. *)
Lemma email_normalised (U : unicode_data) (x : str) :
  validar_email x = true ->
  normalizar_campo U "email" x = Ret x
  /\ forallb (fun c => negb (isspace c)) x = true
  /\ List.length (filter (fun c => c =? 64) x) = 1%nat.
Proof.
  intros H. unfold validar_email in H. rewrite fullmatch_matches in H.
  change re_not_at_space with (Class email_char) in H.
  apply email_regex_parts in H.
  destruct H as (l & d & t & -> & _ & _ & _ & Fl & Fd & Ft).
  assert (Hns : forallb (fun c => negb (isspace c))
                        (l ++ 64 :: d ++ 46 :: t) = true).
  { rewrite forallb_app. simpl. rewrite forallb_app. simpl.
    rewrite !(forallb_weaken _ _ _ email_char_no_space) by assumption.
    reflexivity. }
  assert (Hat : forall p, forallb email_char p = true ->
                          filter (fun c => c =? 64) p = []).
  { induction p as [|c p IH]; [reflexivity|]. simpl.
    rewrite andb_true_iff. intros [Hc Hp]. unfold email_char in Hc.
    rewrite negb_true_iff, orb_false_iff in Hc. destruct Hc as [-> _].
    apply IH, Hp. }
  split; [|split; [exact Hns|]].
  - unfold normalizar_campo. cbn [String.eqb Ascii.eqb Bool.eqb Dict.mem existsb orb].
    rewrite strip_no_space by exact Hns. reflexivity.
  - rewrite filter_app. simpl. rewrite filter_app. simpl.
    rewrite !Hat by assumption. reflexivity.
Qed.

(** *** Names: whitespace-separated words *)

Lemma split_from_spaces (ws tok : str) :
  forallb isspace ws = true ->
  split_from ws tok = match tok with [] => [] | _ => [rev tok] end.
Proof.
  revert tok; induction ws as [|c ws IH]; intros tok H; [reflexivity|].
  simpl in *. apply andb_true_iff in H. destruct H as [-> H].
  destruct tok; rewrite IH by exact H; reflexivity.
Qed.

Lemma split_from_app_spaces (s ws tok : str) :
  forallb isspace ws = true ->
  split_from (s ++ ws) tok = split_from s tok.
Proof.
  intros H. revert tok; induction s as [|c s IH]; intros tok; simpl.
  - apply split_from_spaces, H.
  - destruct (isspace c); [destruct tok|]; rewrite IH; reflexivity.
Qed.

Lemma split_lstrip (s : str) : split (lstrip s) = split s.
Proof.
  unfold split. induction s as [|c s IH]; [reflexivity|].
  simpl. destruct (isspace c) eqn:E; [exact IH|]. simpl. rewrite E. reflexivity.
Qed.

Lemma lstrip_spaces (s : str) :
  exists ws, s = ws ++ lstrip s /\ forallb isspace ws = true.
Proof.
  induction s as [|c s (ws & E & H)]; [exists []; auto|].
  simpl. destruct (isspace c) eqn:Ec.
  - exists (c :: ws). simpl. rewrite Ec, H, <- E. auto.
  - exists []. auto.
Qed.

Lemma split_rstrip (s : str) : split (rstrip s) = split s.
Proof.
  unfold rstrip. destruct (lstrip_spaces (rev s)) as (ws & E & H).
  assert (Es : s = rev (lstrip (rev s)) ++ rev ws).
  { rewrite <- rev_app_distr, <- E, rev_involutive. reflexivity. }
  rewrite Es at 2. unfold split. rewrite split_from_app_spaces; [reflexivity|].
  rewrite forallb_forall in *. intros c Hc. apply H, in_rev, Hc.
Qed.

Lemma split_strip (s : str) : split (strip s) = split s.
Proof. unfold strip. rewrite split_rstrip. apply split_lstrip. Qed.

Lemma split_from_word (s tok : str) :
  existsb isspace s = false ->
  split_from s tok = match rev tok ++ s with [] => [] | t => [t] end.
Proof.
  revert tok; induction s as [|c s IH]; intros tok H; simpl in *.
  - rewrite app_nil_r. destruct tok as [|x tok]; [reflexivity|].
    simpl. destruct (rev tok ++ [x]) eqn:E; [|reflexivity].
    apply app_eq_nil in E. destruct E; discriminate.
  - apply orb_false_iff in H. destruct H as [-> H].
    rewrite IH by exact H. simpl. rewrite <- app_assoc. reflexivity.
Qed.

Lemma split_from_pending (s tok : str) : tok <> [] -> split_from s tok <> [].
Proof.
  revert tok; induction s as [|c s IH]; intros tok H; simpl.
  - destruct tok; [contradiction | discriminate].
  - destruct (isspace c); [destruct tok; [contradiction | discriminate]|].
    apply IH. discriminate.
Qed.

Lemma split_from_nonempty (s : str) :
  existsb (fun c => negb (isspace c)) s = true -> split_from s [] <> [].
Proof.
  induction s as [|c s IH]; simpl; [discriminate|].
  destruct (isspace c); simpl; [exact IH|].
  intros _. apply split_from_pending. discriminate.
Qed.

Lemma ends_word_has_word (p : str) (c : char) :
  isspace c = false -> existsb (fun c => negb (isspace c)) (p ++ [c]) = true.
Proof.
  intros H. rewrite existsb_app. simpl. rewrite H. simpl.
  apply orb_true_r.
Qed.

Lemma split_from_two (t tok : str) :
  (exists p c, t = p ++ [c] /\ isspace c = false) ->
  existsb isspace t = true ->
  tok <> [] \/ (exists c r, t = c :: r /\ isspace c = false) ->
  (2 <= List.length (split_from t tok))%nat.
Proof.
  revert tok; induction t as [|c t IH]; intros tok Hend Hsp Hst;
    [discriminate|].
  destruct Hend as (p & e & Ep & He).
  simpl in *. destruct (isspace c) eqn:Ec.
  - assert (Htok : tok <> []).
    { destruct Hst as [H | (c' & r & E & H)]; [exact H|].
      inversion E; subst. congruence. }
    assert (Hw : split_from t [] <> []).
    { apply split_from_nonempty. destruct p as [|x p]; simpl in Ep.
      - inversion Ep; subst. congruence.
      - inversion Ep; subst. apply ends_word_has_word, He. }
    destruct tok; [contradiction|]. simpl.
    destruct (split_from t []); [contradiction | simpl; lia].
  - simpl in Hsp. apply IH; [| exact Hsp | left; discriminate].
    destruct p as [|x p]; simpl in Ep.
    + inversion Ep; subst. discriminate.
    + inversion Ep; subst. exists p, e. auto.
Qed.

Lemma strip_shape (s : str) :
  strip s = []
  \/ (exists c r, strip s = c :: r /\ isspace c = false)
     /\ (exists p c, strip s = p ++ [c] /\ isspace c = false).
Proof.
  destruct (strip s) as [|c r] eqn:E; [left; reflexivity|]. right.
  pose proof (strip_idem s) as Hi. rewrite E in Hi.
  unfold strip in Hi. split.
  - assert (Hl : lstrip (strip s) = strip s).
    { unfold strip. apply lstrip_rstrip, lstrip_idem. }
    rewrite E in Hl. simpl in Hl. exists c, r. split; [reflexivity|].
    destruct (isspace c) eqn:Ec; [|reflexivity].
    destruct (lstrip_suffix r) as [w Hw].
    assert (Hlen : List.length (lstrip r) = S (List.length r))
      by (rewrite Hl; reflexivity).
    rewrite Hw in Hlen at 2. rewrite length_app in Hlen. lia.
  - assert (Hr : rstrip (strip s) = strip s) by (unfold strip; apply rstrip_idem).
    rewrite E in Hr. unfold rstrip in Hr.
    destruct (lstrip_head (rev (c :: r))) as [H0 | (x & q & Hq & Hx)].
    + rewrite H0 in Hr. discriminate.
    + rewrite Hq in Hr. simpl in Hr. exists (rev q), x. auto.
Qed.

(** X4.  [validar_nome] accepts exactly the answers whose trimmed text still
    contains whitespace, that is, at least two words; one word, blanks or
    nothing are rejected. *)
Theorem validar_nome_spec (s : str) :
  validar_nome s = existsb isspace (strip s).
Proof.
  unfold validar_nome. rewrite <- split_strip.
  destruct (existsb isspace (strip s)) eqn:E.
  - apply Nat.leb_le.
    destruct (strip_shape s) as [H0 | [Hhead Hend]];
      [rewrite H0 in E; discriminate|].
    unfold split. apply split_from_two; auto.
  - unfold split. rewrite split_from_word by exact E. simpl.
    destruct (strip s); reflexivity.
Qed.

(** ** What the normaliser stores *)

(** X5.  An accepted urgency answer is stored as one of three words, "alta",
    "media" or "baixa": both spellings of the middle one become "media".
    This holds whatever the interpreter's case tables are. *)
Theorem urgencia_stored_canonical (U : unicode_data) (x : str) :
  validar_urgencia U x = true ->
  exists y,
    normalizar_campo U "urgencia" x = Ret y /\
    In y [u "alta"; u "media"; u "baixa"] /\
    (y = u "media"
     <-> lower U (strip x) = u "media" \/ lower U (strip x) = u "média").
Proof.
  unfold validar_urgencia. intros H. apply str_in_cases in H.
  unfold normalizar_campo.
  cbn [String.eqb Ascii.eqb Bool.eqb].
  destruct H as [E | [E | [E | [E | []]]]]; rewrite <- E;
    eexists; (split; [reflexivity|]); vm_compute;
    (split; [tauto|]); split; intros H;
    try (destruct H as [H | H]); try discriminate; auto.
Qed.

Lemma ascii_digits_uint (s : str) :
  forallb is_ascii_digit s = true -> exists d, s = chars_of_uint d.
Proof.
  induction s as [|c s IH]; [exists Nil; reflexivity|].
  simpl. rewrite andb_true_iff. intros [Hc Hs].
  destruct (IH Hs) as [d ->].
  unfold is_ascii_digit in Hc.
  assert (Hr : c = 48 \/ c = 49 \/ c = 50 \/ c = 51 \/ c = 52 \/ c = 53
               \/ c = 54 \/ c = 55 \/ c = 56 \/ c = 57) by lia.
  destruct Hr as [-> | [-> | [-> | [-> | [-> | [-> | [-> | [-> | [-> | ->]]]]]]]]];
    [exists (D0 d) | exists (D1 d) | exists (D2 d) | exists (D3 d) | exists (D4 d)
    | exists (D5 d) | exists (D6 d) | exists (D7 d) | exists (D8 d) | exists (D9 d)];
    reflexivity.
Qed.

Lemma str_of_int_of_uint (d : uint) :
  str_of_int (Z.of_uint d) = chars_of_uint (unorm d).
Proof.
  unfold str_of_int.
  change (Z.of_uint d) with (Z.of_int (Decimal.Pos d)).
  rewrite DecimalZ.to_of. reflexivity.
Qed.

(** X6.  A numeric answer (area, bedrooms) written in ASCII digits, blanks
    around it allowed, is accepted.  It is stored as the same numeral without
    its leading zeros ([unorm] keeps one zero for zero), unless it has more
    digits than the interpreter converts (4300 unless configured otherwise):
    then [int] raises [ValueError]. *)
Theorem ascii_number_stored_without_leading_zeros
        (U : unicode_data) (chave : string) (x : str) :
  unicode_ok U ->
  chave = "metragem" \/ chave = "quartos" ->
  truthy (strip x) = true ->
  forallb is_ascii_digit (strip x) = true ->
  valido U chave x = true /\
  exists d,
    strip x = chars_of_uint d /\
    normalizar_campo U chave x
    = if over_limit U (List.length (strip x)) then Raise ValueError
      else Ret (chars_of_uint (unorm d)).
Proof.
  intros HU Hk Ht Hd. split.
  - destruct Hk as [-> | ->];
      [change (valido U "metragem" x) with (validar_numero U x)
      |change (valido U "quartos" x) with (validar_numero U x)];
      apply validar_numero_ascii; assumption.
  - destruct (ascii_digits_uint _ Hd) as [d E]. exists d. split; [exact E|].
    assert (Hn : d <> Nil) by (intros ->; rewrite E in Ht; discriminate).
    pose proof (int_chars U d Hn) as Hi. rewrite <- E in Hi.
    rewrite E, nb_digits_chars.
    assert (Hnorm : normalizar_campo U chave x
                    = match Py.int U (strip x) with
                      | Some n => match str_int U n with
                                  | Some s => Ret s
                                  | None => Raise ValueError
                                  end
                      | None => Raise ValueError
                      end)
      by (destruct Hk as [-> | ->]; reflexivity).
    rewrite Hnorm.
    destruct (over_limit U (nb_digits d)) eqn:Hl; rewrite Hi; [reflexivity|].
    rewrite (str_int_after_int U _ _ Hi), str_of_int_of_uint. reflexivity.
Qed.

(** ** More on the funnel *)

Section Conversation.

Variable U : unicode_data.
Variable XL : excel.
Variables COMPANY_NAME COMPANY_BLURB : str.

Local Abbreviation KEYS := (Dict.keys PERGUNTAS).
Local Abbreviation total := 9%nat.
Local Abbreviation first_question := (u "Qual é o seu nome completo?").

Lemma arrived_fields (raw : str) (now now' : Z) (w : world) :
  let a := arrived raw now now' w in
  step (ss a) = step (ss w) /\ lead (ss a) = lead (ss w) /\
  saved a = saved w /\ disk a = disk w /\
  messages (ss a) = messages (ss w) ++ [(user, escape_dollar raw)].
Proof.
  cbv zeta. unfold arrived.
  destruct (now - prev_question_timestamp (ss w) <? MIN_TIME_BETWEEN_REQUESTS);
    repeat (apply conj; [reflexivity|]); reflexivity.
Qed.

(** The transcript after [process], case by case. *)
Lemma process_tail (raw : str) (now now' : Z) (w : world) :
  let r := process U XL raw now now' w in
  exists tail,
    messages (ss (snd r))
    = messages (ss w) ++ (user, escape_dollar raw) :: tail /\
    ((fst r = Ret tt /\
      exists x y, tail = [(assistant, x); (assistant, y)])
     \/ (fst r = Ret tt /\ tail = [(assistant, resposta)])
     \/ (exists e, fst r = Raise e /\ tail = [] /\
                   step (ss (snd r)) = step (ss w))
     \/ (fst r = Raise IllegalCharacterError /\
         tail = [(assistant, entendi)] /\ step (ss (snd r)) = total)).
Proof.
  cbv zeta. rewrite process_eq.
  destruct (arrived_fields raw now now' w) as (Hs & _ & _ & _ & Hm).
  cbv zeta in Hs, Hm. set (a := arrived raw now now' w) in *. clearbody a.
  destruct (Nat.lt_ge_cases (step (ss a)) total) as [Hlt | Hge].
  - destruct (field_at _ Hlt) as (chave & texto & Hk & Ht).
    destruct (valido U chave (escape_dollar raw)) eqn:Hv.
    + destruct (normalizar_campo U chave (escape_dollar raw)) as [v|e|] eqn:Hn.
      * rewrite (funnel_accepted _ _ _ _ _ _ Hk Hv Hn).
        set (b := with_ss (push assistant entendi)
                    (with_ss next_step (with_ss (put_lead chave v) a))).
        assert (Hb : messages (ss b) = messages (ss a) ++ [(assistant, entendi)])
          by reflexivity.
        assert (Hsb : step (ss b) = S (step (ss a))) by reflexivity.
        destruct (Nat.lt_ge_cases (step (ss b)) total) as [Hlt' | Hge'].
        -- destruct (field_at _ Hlt') as (chave' & texto' & Hk' & Ht').
           rewrite (ask_next _ _ _ _ Hk' Ht').
           exists [(assistant, entendi); (assistant, texto')].
           cbn [snd fst messages ss with_ss push]. rewrite Hb, Hm, <- !app_assoc.
           split; [reflexivity|]. left. split; [reflexivity|]. eauto.
        -- rewrite (ask_done _ _ Hge').
           destruct (writable XL (frame_of_record (lead (ss b)))).
           ++ exists [(assistant, entendi); (assistant, msg_final)].
              cbn [snd fst messages ss with_ss push persisted].
              rewrite Hb, Hm, <- !app_assoc.
              split; [reflexivity|]. left. split; [reflexivity|]. eauto.
           ++ exists [(assistant, entendi)].
              cbn [snd fst messages ss persisted step].
              rewrite Hb, Hm, <- !app_assoc.
              split; [reflexivity|]. right. right. right.
              split; [reflexivity|]. split; [reflexivity|]. lia.
      * rewrite (funnel_raised _ _ _ _ _ _ Hk Hv Hn). exists [].
        cbn [snd fst]. rewrite Hm. split; [reflexivity|]. right. right. left.
        eauto.
      * elim (normalizar_campo_not_halt _ _ _ Hn).
    + rewrite (funnel_rejected _ _ _ _ _ _ Hk Ht Hv).
      eexists [(assistant, _); (assistant, texto)].
      cbn [snd fst messages ss with_ss push]. rewrite Hm, <- !app_assoc.
      split; [reflexivity|]. left. split; [reflexivity|]. eauto.
  - rewrite (funnel_complete _ _ _ _ Hge).
    exists [(assistant, resposta)].
    cbn [snd fst messages ss with_ss push]. rewrite Hm, <- !app_assoc.
    split; [reflexivity|]. right. left. auto.
Qed.

(** X7.  No message is dropped silently: [process] always puts the user's
    bubble in the transcript, and when it returns normally the assistant
    answers with one or two messages after it (acknowledgement and next
    question or closing message, error and the same question, or the
    post-completion reply).  When it raises, either nothing follows the
    bubble and the step is as before, or the acknowledgement alone follows
    it: this is the last answer, accepted and counted, whose save raised. *)
Theorem process_replies (raw : str) (now now' : Z) (w : world) :
  let r := process U XL raw now now' w in
  exists tail,
    messages (ss (snd r))
    = messages (ss w) ++ (user, escape_dollar raw) :: tail /\
    Forall (fun m => fst m = assistant) tail /\
    (fst r = Ret tt -> (1 <= List.length tail <= 2)%nat) /\
    (fst r <> Ret tt ->
     (tail = [] /\ step (ss (snd r)) = step (ss w))
     \/ (tail = [(assistant, entendi)] /\
         fst r = Raise IllegalCharacterError /\
         step (ss (snd r)) = total)).
Proof.
  cbv zeta. destruct (process_tail raw now now' w) as (tail & Hm & Hc).
  cbv zeta in Hm, Hc. exists tail. split; [exact Hm|].
  destruct Hc as [(E & x & y & ->) | [(E & ->) | [(e & E & -> & Hs) | (E & -> & Hs)]]];
    rewrite E.
  - split; [repeat constructor|]. split; [intros _; simpl; lia|].
    intros H; elim H; reflexivity.
  - split; [repeat constructor|]. split; [intros _; simpl; lia|].
    intros H; elim H; reflexivity.
  - split; [constructor|]. split; [discriminate | auto].
  - split; [repeat constructor|]. split; [discriminate | auto].
Qed.

Lemma process_complete_view (raw : str) (now now' : Z) (w : world) :
  (total <= step (ss w))%nat ->
  fst (process U XL raw now now' w) = Ret tt /\
  funnel_view (snd (process U XL raw now now' w)) = funnel_view w.
Proof.
  intros Hge. rewrite process_eq.
  destruct (arrived_fields raw now now' w) as (Hs & Hl & Hsv & Hd & _).
  cbv zeta in *. rewrite funnel_complete by (rewrite Hs; exact Hge).
  unfold funnel_view. cbn [fst snd ss with_ss push step lead saved disk].
  rewrite Hs, Hl, Hsv, Hd. auto.
Qed.

Lemma process_rejected_view (raw : str) (now now' : Z) (w : world)
      (chave : string) :
  nth_error KEYS (step (ss w)) = Some chave ->
  valido U chave (escape_dollar raw) = false ->
  fst (process U XL raw now now' w) = Ret tt /\
  funnel_view (snd (process U XL raw now now' w)) = funnel_view w.
Proof.
  intros Hk Hv. rewrite process_eq.
  destruct (arrived_fields raw now now' w) as (Hs & Hl & Hsv & Hd & _).
  cbv zeta in *.
  destruct (field_at _ (field_at_lt _ _ Hk)) as (c & texto & Hk' & Ht).
  rewrite Hk in Hk'. injection Hk' as <-.
  rewrite (funnel_rejected U XL _ _ chave texto) by (rewrite ?Hs; assumption).
  unfold funnel_view. cbn [fst snd ss with_ss push step lead saved disk].
  rewrite Hs, Hl, Hsv, Hd. auto.
Qed.

Lemma process_raised_view (raw : str) (now now' : Z) (w : world)
      (chave : string) (e : exn) :
  nth_error KEYS (step (ss w)) = Some chave ->
  valido U chave (escape_dollar raw) = true ->
  normalizar_campo U chave (escape_dollar raw) = Raise e ->
  fst (process U XL raw now now' w) = Raise e /\
  funnel_view (snd (process U XL raw now now' w)) = funnel_view w.
Proof.
  intros Hk Hv Hn. rewrite process_eq.
  destruct (arrived_fields raw now now' w) as (Hs & Hl & Hsv & Hd & _).
  cbv zeta in *.
  rewrite (funnel_raised U XL _ _ chave e) by (rewrite ?Hs; assumption).
  unfold funnel_view. cbn [fst snd]. rewrite Hs, Hl, Hsv, Hd. auto.
Qed.

Lemma last_field (n : nat) (chave : string) :
  nth_error KEYS n = Some chave ->
  (S n = total <-> chave = "urgencia").
Proof.
  intros H. pose proof (field_at_lt _ _ H) as Hlt.
  do 9 (destruct n as [|n];
        [injection H as <-; split; intros H; first [reflexivity | discriminate]|]).
  lia.
Qed.

(** The normaliser raises only on a numeric field, when [int] refuses the
    trimmed text. *)
Lemma normalizar_campo_raises (chave : string) (m : str) (e : exn) :
  normalizar_campo U chave m = Raise e
  <-> e = ValueError /\ (chave = "metragem" \/ chave = "quartos") /\
      Py.int U (strip m) = None.
Proof.
  split.
  - unfold normalizar_campo.
    destruct (String.eqb chave "operacao"); [discriminate|].
    destruct (String.eqb chave "urgencia"); [discriminate|].
    destruct (Dict.mem chave ["metragem"; "quartos"]) eqn:Hm; [|discriminate].
    apply dict_mem_In in Hm.
    assert (Hc : chave = "metragem" \/ chave = "quartos")
      by (destruct Hm as [<- | [<- | []]]; auto).
    destruct (Py.int U (strip m)) as [n|] eqn:Hi.
    + rewrite (str_int_after_int U _ _ Hi). discriminate.
    + intros H. injection H as <-. auto.
  - intros (-> & Hc & Hi).
    destruct Hc as [-> | ->]; unfold normalizar_campo;
      cbn [String.eqb Ascii.eqb Bool.eqb Dict.mem existsb orb];
      rewrite Hi; reflexivity.
Qed.

(** X8.  [process] raises in two cases and, failures of the operating
    system apart, in no other.  Either the current question is the area or
    the bedrooms, the numeric validator accepts the escaped message and
    [int] refuses it (a digit that is not a decimal, or more digits than the
    interpreter converts): the exception is [ValueError].  Or the current
    question is the last one, the answer is accepted, and the completed
    record holds a text the spreadsheet engine cannot write: the exception
    is the engine's, raised from [salvar_lead]. *)
Theorem process_raises_iff (raw : str) (now now' : Z) (w : world) (e : exn) :
  fst (process U XL raw now now' w) = Raise e
  <-> (e = ValueError /\
       (nth_error KEYS (step (ss w)) = Some "metragem"
        \/ nth_error KEYS (step (ss w)) = Some "quartos") /\
       validar_numero U (escape_dollar raw) = true /\
       Py.int U (strip (escape_dollar raw)) = None)
      \/ (e = IllegalCharacterError /\
          nth_error KEYS (step (ss w)) = Some "urgencia" /\
          validar_urgencia U (escape_dollar raw) = true /\
          exists v,
            normalizar_campo U "urgencia" (escape_dollar raw) = Ret v /\
            writable XL (frame_of_record
                           (Dict.set (lead (ss w)) "urgencia" v)) = false).
Proof.
  split.
  - intros H.
    destruct (Nat.lt_ge_cases (step (ss w)) total) as [Hlt | Hge].
    2:{ destruct (process_complete_view raw now now' w Hge) as [E _].
        congruence. }
    destruct (field_at _ Hlt) as (chave & texto & Hk & Ht).
    destruct (valido U chave (escape_dollar raw)) eqn:Hv.
    2:{ destruct (process_rejected_view raw now now' w chave Hk Hv) as [E _].
        congruence. }
    destruct (normalizar_campo U chave (escape_dollar raw)) as [v|e'|] eqn:Hn.
    + destruct (process_accepted U XL raw now now' w chave v Hk Hv Hn) as [E _].
      rewrite E in H.
      destruct (Nat.eqb_spec (S (step (ss w))) total) as [E9 | _];
        [|discriminate].
      destruct (writable XL _) eqn:Hw; [discriminate|].
      injection H as <-. apply (last_field _ _ Hk) in E9. subst chave.
      right. split; [reflexivity|]. split; [exact Hk|].
      split; [exact Hv|]. exists v. auto.
    + destruct (process_raised_view raw now now' w chave e' Hk Hv Hn) as [E _].
      rewrite E in H. injection H as ->.
      apply normalizar_campo_raises in Hn. destruct Hn as (-> & Hc & Hi).
      left. split; [reflexivity|].
      destruct Hc as [-> | ->]; (split; [auto|]); split; auto.
    + elim (normalizar_campo_not_halt _ _ _ Hn).
  - intros [(-> & Hk & Hv & Hi) | (-> & Hk & Hv & v & Hn & Hw)].
    + destruct Hk as [Hk | Hk].
      * apply (process_raised_view raw now now' w "metragem" ValueError Hk Hv).
        apply normalizar_campo_raises. auto.
      * apply (process_raised_view raw now now' w "quartos" ValueError Hk Hv).
        apply normalizar_campo_raises. auto.
    + destruct (process_accepted U XL raw now now' w "urgencia" v Hk Hv Hn)
        as [E _].
      rewrite E, Hw.
      rewrite (proj2 (Nat.eqb_eq _ _) (proj2 (last_field _ _ Hk) eq_refl)).
      reflexivity.
Qed.

Lemma process_view_step
        (raw : str) (n1 n1' n2 n2' : Z) (w1 w2 : world) :
  funnel_view w1 = funnel_view w2 ->
  fst (process U XL raw n1 n1' w1) = fst (process U XL raw n2 n2' w2) /\
  funnel_view (snd (process U XL raw n1 n1' w1))
  = funnel_view (snd (process U XL raw n2 n2' w2)).
Proof.
  intros Hv. pose proof Hv as Hv'. unfold funnel_view in Hv'.
  injection Hv' as Hs Hl Hsv Hd.
  destruct (Nat.lt_ge_cases (step (ss w1)) total) as [Hlt | Hge].
  2:{ destruct (process_complete_view raw n1 n1' w1 Hge) as [-> ->].
      rewrite Hs in Hge.
      destruct (process_complete_view raw n2 n2' w2 Hge) as [-> ->]. auto. }
  destruct (field_at _ Hlt) as (chave & texto & Hk & Ht).
  pose proof Hk as Hk2. rewrite Hs in Hk2.
  destruct (valido U chave (escape_dollar raw)) eqn:Hval.
  2:{ destruct (process_rejected_view raw n1 n1' w1 chave Hk Hval) as [-> ->].
      destruct (process_rejected_view raw n2 n2' w2 chave Hk2 Hval) as [-> ->].
      auto. }
  destruct (normalizar_campo U chave (escape_dollar raw)) as [v|e|] eqn:Hn.
  - destruct (process_accepted U XL raw n1 n1' w1 chave v Hk Hval Hn)
      as (E1 & _ & S1 & L1 & V1 & D1).
    destruct (process_accepted U XL raw n2 n2' w2 chave v Hk2 Hval Hn)
      as (E2 & _ & S2 & L2 & V2 & D2).
    cbv zeta in *. unfold funnel_view.
    rewrite E1, E2, S1, S2, L1, L2, V1, V2, D1, D2, Hs, Hl, Hsv, Hd. auto.
  - destruct (process_raised_view raw n1 n1' w1 chave e Hk Hval Hn) as [-> ->].
    destruct (process_raised_view raw n2 n2' w2 chave e Hk2 Hval Hn) as [-> ->].
    auto.
  - elim (normalizar_campo_not_halt _ _ _ Hn).
Qed.


(** X9.  The funnel's progress depends only on the step, the record and the
    spreadsheet, and on the messages: two worlds that agree on these and
    receive the same messages, at whatever times and with whatever
    transcripts, agree on them after every message; the last message has the
    same outcome in both. *)
Theorem process_depends_on_funnel_view
        (msgs : list (str * (Z * Z) * (Z * Z))) (w1 w2 : world) :
  funnel_view w1 = funnel_view w2 ->
  let feed (side : (Z * Z) * (Z * Z) -> Z * Z) w x :=
    snd (process U XL (fst (fst x)) (fst (side (snd (fst x), snd x)))
           (snd (side (snd (fst x), snd x))) w) in
  let v1 := fold_left (feed fst) msgs w1 in
  let v2 := fold_left (feed snd) msgs w2 in
  funnel_view v1 = funnel_view v2 /\
  forall raw n1 n1' n2 n2',
    fst (process U XL raw n1 n1' v1) = fst (process U XL raw n2 n2' v2).
Proof.
  cbv zeta. revert w1 w2.
  induction msgs as [|[[raw t1] t2] msgs IH]; intros w1 w2 H.
  - split; [exact H|]. intros raw n1 n1' n2 n2'.
    apply (process_view_step raw n1 n1' n2 n2' w1 w2 H).
  - cbn [fold_left fst snd]. apply IH.
    apply (process_view_step raw (fst t1) (snd t1) (fst t2) (snd t2) w1 w2 H).
Qed.

(** X10.  A rejected answer leaves no trace in the funnel: whatever is typed
    after it is treated exactly as if it had been typed in its place. *)
Theorem retry_after_rejection
        (raw1 raw2 : str) (n1 n1' n2 n2' : Z) (w : world) (chave : string) :
  nth_error KEYS (step (ss w)) = Some chave ->
  valido U chave (escape_dollar raw1) = false ->
  let w1 := snd (process U XL raw1 n1 n1' w) in
  fst (process U XL raw2 n2 n2' w1) = fst (process U XL raw2 n2 n2' w) /\
  funnel_view (snd (process U XL raw2 n2 n2' w1))
  = funnel_view (snd (process U XL raw2 n2 n2' w)).
Proof.
  intros Hk Hv. cbv zeta.
  apply process_view_step.
  apply (process_rejected_view raw1 n1 n1' w chave Hk Hv).
Qed.

Ltac open_monad :=
  cbv beta iota delta
    [bind ret raise stop session update lift when getitem index
     append_message sleep do_salvar_lead].

Lemma ask_first (w : world) :
  step (ss w) = 0%nat ->
  perguntar_proximo_campo XL w
  = (Ret tt, with_ss (push assistant (u "Qual é o seu nome completo?")) w).
Proof. intros H. apply (ask_next XL w "nome"); [rewrite H|]; reflexivity. Qed.

Lemma run_unfolded (i : inputs) (w : world) :
  (messages (ss w) = [] -> step (ss w) = 0%nat) ->
  run U XL COMPANY_NAME COMPANY_BLURB i w
  = let a := truthy_opt (in_initial_question i) in
    let b := truthy_key (in_selected_suggestion i) in
    match messages (ss w) with
    | [] => if negb (a || b) then (Halt, deliver i w) else
        match (if negb (truthy_opt (in_typed i)) then
                 if b then match in_selected_suggestion i with
                           | Some k => option_map Some (Dict.get SUGGESTIONS k)
                           | None => Some (if a then in_initial_question i else in_typed i)
                           end
                 else Some (if a then in_initial_question i else in_typed i)
               else Some (in_typed i)) with
        | None => (Raise KeyError, deliver i w)
        | Some (Some m) => if truthy m then process U XL m (in_now i) (in_now' i) (entered COMPANY_NAME COMPANY_BLURB i w)
                           else (Ret tt, entered COMPANY_NAME COMPANY_BLURB i w)
        | Some None => (Ret tt, entered COMPANY_NAME COMPANY_BLURB i w)
        end
    | _ => 
        match (if negb (truthy_opt (in_typed i)) then
                 if b then match in_selected_suggestion i with
                           | Some k => option_map Some (Dict.get SUGGESTIONS k)
                           | None => Some (if a then in_initial_question i else in_typed i)
                           end
                 else Some (if a then in_initial_question i else in_typed i)
               else Some (in_typed i)) with
        | None => (Raise KeyError, deliver i w)
        | Some (Some m) => if truthy m then process U XL m (in_now i) (in_now' i) (entered COMPANY_NAME COMPANY_BLURB i w)
                           else (Ret tt, entered COMPANY_NAME COMPANY_BLURB i w)
        | Some None => (Ret tt, entered COMPANY_NAME COMPANY_BLURB i w)
        end
    end.
Proof.
  intros Hinit. cbv zeta. unfold run, script, entered. open_monad.
  change (messages (ss (deliver i w))) with (messages (ss w)).
  change (initial_question (ss (deliver i w))) with (in_initial_question i).
  change (selected_suggestion (ss (deliver i w))) with (in_selected_suggestion i).
  destruct (messages (ss w)) as [|m0 ms] eqn:Hm.
  - specialize (Hinit eq_refl).
    change (negb (0 <? Datatypes.length (@nil message))%nat) with true.
    rewrite andb_true_r.
    destruct (negb (truthy_opt (in_initial_question i) || truthy_key (in_selected_suggestion i))); [reflexivity|].
    cbv beta iota.
    destruct (negb (truthy_opt (in_typed i)));
    [destruct (truthy_key (in_selected_suggestion i));
     [destruct (in_selected_suggestion i) as [k|]; [destruct (Dict.get SUGGESTIONS k)|]|]|];
    cbv beta iota; cbn [option_map]; try reflexivity;
    rewrite ask_first by exact Hinit; cbv beta iota; unfold greeted;
    repeat match goal with |- context [match ?x with Some _ => _ | None => _ end] => destruct x end;
    try reflexivity; destruct (truthy _); reflexivity.
  - change (negb (0 <? Datatypes.length (m0 :: ms))%nat) with false.
    rewrite andb_false_r. cbv beta iota.
    destruct (negb (truthy_opt (in_typed i)));
    [destruct (truthy_key (in_selected_suggestion i));
     [destruct (in_selected_suggestion i) as [k|]; [destruct (Dict.get SUGGESTIONS k)|]|]|];
    cbv beta iota; cbn [option_map]; try reflexivity;
    repeat match goal with |- context [match ?x with Some _ => _ | None => _ end] => destruct x end;
    try reflexivity; destruct (truthy _); reflexivity.
Qed.

(** X11.  Which message an execution processes.  With an empty transcript
    and neither an opening question nor a suggestion, the script stops at the
    opening screen and changes nothing.  Otherwise text typed in the chat
    input wins; failing that the selected suggestion's text; failing that
    the opening question; a suggestion label that is not in [SUGGESTIONS]
    raises [KeyError] before anything is written; and with nothing to
    process the execution only redraws. *)
Theorem message_choice (i : inputs) (w : world) :
  (messages (ss w) = [] -> step (ss w) = 0%nat) ->
  let a := truthy_opt (in_initial_question i) in
  let b := truthy_key (in_selected_suggestion i) in
  let go m := process U XL m (in_now i) (in_now' i)
                (entered COMPANY_NAME COMPANY_BLURB i w) in
  let r := run U XL COMPANY_NAME COMPANY_BLURB i w in
  (messages (ss w) = [] -> a = false -> b = false -> r = (Halt, deliver i w)) /\
  (messages (ss w) <> [] \/ a = true \/ b = true ->
   forall m, in_typed i = Some m -> truthy m = true -> r = go m) /\
  (truthy_opt (in_typed i) = false -> b = true ->
   forall k, in_selected_suggestion i = Some k ->
     (forall t, Dict.get SUGGESTIONS k = Some t -> truthy t = true -> r = go t) /\
     (Dict.get SUGGESTIONS k = None -> r = (Raise KeyError, deliver i w))) /\
  (truthy_opt (in_typed i) = false -> b = false ->
   forall q, in_initial_question i = Some q -> truthy q = true -> r = go q) /\
  (truthy_opt (in_typed i) = false -> a = false -> b = false ->
   messages (ss w) <> [] -> r = (Ret tt, deliver i w)).
Proof.
  intros Hinit. cbv zeta. rewrite (run_unfolded i w Hinit). cbv zeta.
  split; [|split; [|split; [|split]]].
  - intros -> -> ->. reflexivity.
  - intros Hgo m Hm Ht. rewrite Hm. cbn [truthy_opt]. rewrite Ht.
    destruct (messages (ss w)) eqn:E.
    + destruct Hgo as [H | [-> | ->]]; [contradiction | |];
        rewrite ?orb_true_r; cbn [negb orb]; rewrite Ht; reflexivity.
    + cbn [negb]. rewrite Ht. reflexivity.
  - intros Ht Hb k Hk. rewrite Ht, Hb, Hk, orb_true_r. cbn [negb]. split.
    + intros t -> Htt. cbn [option_map]. rewrite Htt.
      destruct (messages (ss w)); reflexivity.
    + intros ->. destruct (messages (ss w)); reflexivity.
  - intros Ht Hb q Hq Hqt. rewrite Ht, Hb, Hq. cbn [truthy_opt negb].
    rewrite Hqt. cbn [orb negb]. rewrite Hqt.
    destruct (messages (ss w)); reflexivity.
  - intros Ht -> -> Hne. rewrite Ht. cbn [negb orb].
    unfold entered. destruct (messages (ss w)) eqn:E; [contradiction|].
    destruct (in_typed i) as [x|]; [|reflexivity].
    cbn [truthy_opt] in Ht. rewrite Ht. reflexivity.
Qed.

Lemma dict_get_In {V} (d : Dict.t V) (k : string) (v : V) :
  Dict.get d k = Some v -> In (k, v) d.
Proof.
  induction d as [|[k' v'] d IH]; [discriminate|]. simpl.
  destruct (String.eqb_spec k k') as [-> | _].
  - intros E; injection E as ->. left; reflexivity.
  - intros H. right. exact (IH H).
Qed.

Lemma entered_fields (i : inputs) (w : world) :
  let e := entered COMPANY_NAME COMPANY_BLURB i w in
  step (ss e) = step (ss w) /\ lead (ss e) = lead (ss w) /\
  saved e = saved w /\ disk e = disk w /\ slept e = slept w /\
  prev_question_timestamp (ss e) = prev_question_timestamp (ss w) /\
  messages (ss e)
  = messages (ss w)
    ++ match messages (ss w) with
       | [] => [(assistant, WELCOME_MSG COMPANY_NAME COMPANY_BLURB);
                (assistant, first_question)]
       | _ => []
       end.
Proof.
  cbv zeta. unfold entered.
  destruct (messages (ss w)) eqn:E;
    repeat (apply conj; [reflexivity|]);
    cbn [messages ss greeted with_ss push deliver]; rewrite E;
    [reflexivity | rewrite app_nil_r; reflexivity].
Qed.

(** X12.  On a fresh session, clicking any of the suggestions makes its text
    the answer to the first question: every suggestion has at least two
    words, so it is accepted and stored as the lead's name, even when an
    opening question was typed as well. *)
Theorem suggestion_becomes_name (w : world) (k : string) (t : str)
        (q : option str) (now now' : Z) :
  ss w = fresh_session ->
  Dict.get SUGGESTIONS k = Some t ->
  let i := {| in_initial_question := q; in_selected_suggestion := Some k;
              in_typed := None; in_now := now; in_now' := now' |} in
  let r := run U XL COMPANY_NAME COMPANY_BLURB i w in
  fst r = Ret tt /\
  step (ss (snd r)) = 1%nat /\ lead (ss (snd r)) = [("nome", t)] /\
  saved (snd r) = saved w /\ disk (snd r) = disk w.
Proof.
  intros E Hget. cbv zeta.
  set (i := {| in_initial_question := q; in_selected_suggestion := Some k;
               in_typed := None; in_now := now; in_now' := now' |}).
  assert (Hinit : messages (ss w) = [] -> step (ss w) = 0%nat)
    by (rewrite E; reflexivity).
  assert (Hfacts : truthy_key (Some k) = true /\ truthy t = true /\
                   valido U "nome" (escape_dollar t) = true /\
                   normalizar_campo U "nome" (escape_dollar t) = Ret t).
  { apply dict_get_In in Hget. simpl in Hget.
    destruct Hget as [H | [H | [H | [H | [H | []]]]]];
      injection H as <- <-; repeat split; vm_compute; reflexivity. }
  destruct Hfacts as (Hk & Ht & Hv & Hn).
  assert (Hrun : run U XL COMPANY_NAME COMPANY_BLURB i w
                 = process U XL t now now' (entered COMPANY_NAME COMPANY_BLURB i w)).
  { rewrite (run_unfolded i w Hinit). cbv zeta. rewrite E.
    cbn [messages fresh_session in_typed in_selected_suggestion
         in_initial_question i truthy_opt negb].
    rewrite Hk, orb_true_r, Hget. cbn [negb option_map]. rewrite Ht.
    reflexivity. }
  rewrite Hrun.
  destruct (entered_fields i w) as (Hs & Hl & Hsv & Hd & _). cbv zeta in *.
  destruct (process_accepted U XL t now now'
              (entered COMPANY_NAME COMPANY_BLURB i w) "nome" t)
    as (R & _ & S' & L' & V' & D'); [rewrite Hs, E; reflexivity | exact Hv | exact Hn |].
  cbv zeta in *. rewrite R, S', L', V', D', Hs, Hl, Hsv, Hd, E.
  cbn. rewrite app_nil_r. auto.
Qed.

(** *** Worlds reachable from a fresh session *)

Lemma reachable_ind (P : world -> Prop) (d : file) :
  P (fresh_world d) ->
  (forall w, coherent w -> P w -> P (clear_conversation w)) ->
  (forall w i, coherent w -> P w ->
               P (snd (run U XL COMPANY_NAME COMPANY_BLURB i w))) ->
  forall es, P (handle_all U XL COMPANY_NAME COMPANY_BLURB es (fresh_world d)).
Proof.
  intros H0 Hc Hr es.
  assert (G : forall w, coherent w /\ P w ->
              coherent (handle_all U XL COMPANY_NAME COMPANY_BLURB es w)
              /\ P (handle_all U XL COMPANY_NAME COMPANY_BLURB es w)).
  { induction es as [|e es IH]; intros w [C Pw]; [auto|].
    apply IH. split; [apply coherent_handle; exact C|].
    destruct e as [|i]; simpl; auto. }
  apply G. split; [apply coherent_fresh; reflexivity | exact H0].
Qed.

Lemma run_summary (i : inputs) (w : world) :
  (messages (ss w) = [] -> step (ss w) = 0%nat) ->
  let r := run U XL COMPANY_NAME COMPANY_BLURB i w in
  let e := entered COMPANY_NAME COMPANY_BLURB i w in
  (exists o, r = (o, deliver i w))
  \/ r = (Ret tt, e)
  \/ exists m, truthy m = true /\ r = process U XL m (in_now i) (in_now' i) e.
Proof.
  intros Hinit. cbv zeta. rewrite (run_unfolded i w Hinit). cbv zeta.
  destruct (messages (ss w));
    repeat match goal with
           | |- context [if ?b then _ else _] => destruct b eqn:?
           | |- context [match ?x with Some _ => _ | None => _ end] =>
               destruct x eqn:?
           end;
    cbn [option_map];
    first [ left; eexists; reflexivity
          | right; left; reflexivity
          | right; right; eexists; split; [eassumption | reflexivity] ].
Qed.

Lemma run_transcript (i : inputs) (w : world) :
  (messages (ss w) = [] -> step (ss w) = 0%nat) ->
  exists tail,
    messages (ss (snd (run U XL COMPANY_NAME COMPANY_BLURB i w)))
    = messages (ss w) ++ tail /\
    (messages (ss w) = [] ->
     tail = [] \/
     exists rest, tail = (assistant, WELCOME_MSG COMPANY_NAME COMPANY_BLURB)
                         :: (assistant, first_question) :: rest).
Proof.
  intros Hinit.
  destruct (entered_fields i w) as (_ & _ & _ & _ & _ & _ & He). cbv zeta in He.
  destruct (run_summary i w Hinit) as [[o ->] | [-> | (m & _ & ->)]].
  - exists []. cbn [snd]. rewrite app_nil_r. split; [reflexivity | auto].
  - eexists. cbn [snd]. split; [exact He|].
    intros ->. right. eexists. reflexivity.
  - destruct (process_tail m (in_now i) (in_now' i)
                (entered COMPANY_NAME COMPANY_BLURB i w)) as (tail & Hm & _).
    cbv zeta in Hm. rewrite Hm, He, <- app_assoc.
    eexists. split; [reflexivity|].
    intros ->. right. eexists. reflexivity.
Qed.

(** X13.  The transcript only grows during a session, and it always opens
    with the welcome followed by the first question: in every reachable
    world it is empty or starts with these two assistant messages, and an
    execution adds to its end without touching what is there. *)
Theorem transcript_grows_from_greeting (d : file) (es : list event) :
  let w := handle_all U XL COMPANY_NAME COMPANY_BLURB es (fresh_world d) in
  (messages (ss w) = [] \/
   exists rest,
     messages (ss w)
     = (assistant, WELCOME_MSG COMPANY_NAME COMPANY_BLURB)
       :: (assistant, first_question) :: rest) /\
  forall i, exists tail,
    messages (ss (snd (run U XL COMPANY_NAME COMPANY_BLURB i w)))
    = messages (ss w) ++ tail.
Proof.
  cbv zeta. split.
  - apply (reachable_ind
             (fun w => messages (ss w) = [] \/
                exists rest,
                  messages (ss w)
                  = (assistant, WELCOME_MSG COMPANY_NAME COMPANY_BLURB)
                    :: (assistant, first_question) :: rest)).
    + left; reflexivity.
    + intros w _ _. left; reflexivity.
    + intros w i (_ & _ & Hinit) Hw.
      destruct (run_transcript i w Hinit) as (tail & -> & Ht).
      destruct Hw as [E | (rest & E)].
      * rewrite E. simpl. exact (Ht E).
      * rewrite E. right. eexists. reflexivity.
  - intros i.
    pose proof (coherent_handle_all U XL COMPANY_NAME COMPANY_BLURB es
                  (fresh_world d) (coherent_fresh (fresh_world d) eq_refl))
      as (_ & _ & Hinit).
    destruct (run_transcript i _ Hinit) as (tail & E & _). eauto.
Qed.

Lemma run_slept (i : inputs) (w : world) :
  (messages (ss w) = [] -> step (ss w) = 0%nat) ->
  exists l,
    slept (snd (run U XL COMPANY_NAME COMPANY_BLURB i w)) = slept w ++ l /\
    (l = [] \/ exists x, l = [x] /\ 0 < x).
Proof.
  intros Hinit.
  destruct (entered_fields i w) as (_ & _ & _ & _ & Hsl & Hp & _).
  cbv zeta in Hsl, Hp.
  destruct (run_summary i w Hinit) as [[o ->] | [-> | (m & _ & ->)]].
  - exists []. cbn [snd]. rewrite app_nil_r.
    split; [reflexivity | auto].
  - exists []. cbn [snd]. rewrite app_nil_r. split; [exact Hsl | auto].
  - destruct (process_clock U XL m (in_now i) (in_now' i)
                (entered COMPANY_NAME COMPANY_BLURB i w)) as [_ H].
    cbv zeta in H. rewrite H, Hsl, Hp.
    eexists. split; [reflexivity|].
    destruct (Z.ltb_spec (in_now i - prev_question_timestamp (ss w))
                         MIN_TIME_BETWEEN_REQUESTS) as [Hlt | _]; [|auto].
    right. eexists. split; [reflexivity | lia].
Qed.

(** X14.  The script never sleeps for a zero or negative time, so the
    [max(0.0, ...)] guard never clamps, and it sleeps at most once per
    execution: in every reachable world every logged pause is positive and
    there are no more pauses than events. *)
Theorem sleeps_are_positive (d : file) (es : list event) :
  let w := handle_all U XL COMPANY_NAME COMPANY_BLURB es (fresh_world d) in
  Forall (fun x => 0 < x) (slept w) /\
  (List.length (slept w) <= List.length es)%nat.
Proof.
  cbv zeta.
  assert (G : forall es w n,
            coherent w ->
            Forall (fun x => 0 < x) (slept w) /\ (List.length (slept w) <= n)%nat ->
            let w' := handle_all U XL COMPANY_NAME COMPANY_BLURB es w in
            Forall (fun x => 0 < x) (slept w')
            /\ (List.length (slept w') <= n + List.length es)%nat).
  { clear es. induction es as [|e es IH]; intros w n C [F L]; cbv zeta.
    - simpl. split; [exact F | lia].
    - simpl. replace (n + S (List.length es))%nat
        with (S n + List.length es)%nat by lia.
      apply IH; [apply coherent_handle; exact C|].
      destruct e as [|i]; simpl; [split; [exact F | lia]|].
      destruct C as (_ & _ & Hinit).
      destruct (run_slept i w Hinit) as (l & -> & Hl).
      rewrite length_app.
      destruct Hl as [-> | (x & -> & Hx)];
        (split; [apply Forall_app; split; [exact F|]; repeat constructor; lia
                | simpl; lia]). }
  apply (G es (fresh_world d) 0%nat);
    [apply coherent_fresh; reflexivity | split; [constructor | simpl; lia]].
Qed.

(** X15.  Only complete leads are saved: in every reachable world each
    record passed to [salvar_lead] has exactly the nine fields, in the order
    of the questions, and the spreadsheet is what those calls, in order,
    made of the file the first session found. *)
Theorem only_complete_leads_saved (d : file) (es : list event) :
  let w := handle_all U XL COMPANY_NAME COMPANY_BLURB es (fresh_world d) in
  Forall (fun l => Dict.keys l = KEYS) (saved w) /\
  disk w = fold_left (fun f l => snd (salvar_lead XL l f)) (saved w) d.
Proof.
  cbv zeta.
  apply (reachable_ind
           (fun w => Forall (fun l => Dict.keys l = KEYS) (saved w) /\
                     disk w = fold_left (fun f l => snd (salvar_lead XL l f))
                                        (saved w) d)).
  - split; [constructor | reflexivity].
  - intros w _ H. exact H.
  - intros w i C [F D].
    pose proof (coherent_run U XL COMPANY_NAME COMPANY_BLURB i w C)
      as (_ & K' & _).
    destruct C as (_ & _ & Hinit).
    destruct (run_effect U XL COMPANY_NAME COMPANY_BLURB i w Hinit)
      as [_ [(_ & _ & -> & ->) | (chave & v & _ & Hs & _ & -> & ->)]];
      [auto|].
    destruct (Nat.eqb_spec (S (step (ss w))) total) as [E9 | _].
    + rewrite Hs, E9 in K'. split.
      * apply Forall_app. split; [exact F|]. constructor; [exact K' | constructor].
      * rewrite fold_left_app, <- D. reflexivity.
    + rewrite app_nil_r. auto.
Qed.

(** *** A save that raises *)

Lemma dict_get_set {V} (d : Dict.t V) (k : string) (v : V) :
  Dict.get (Dict.set d k v) k = Some v.
Proof.
  induction d as [|[k' v'] d IH]; simpl.
  - rewrite String.eqb_refl. reflexivity.
  - destruct (String.eqb_spec k k') as [-> | Hne]; simpl.
    + rewrite String.eqb_refl. reflexivity.
    + destruct (String.eqb_spec k k'); [contradiction | exact IH].
Qed.

Lemma complete_stays (l : list inputs) (w : world) :
  coherent w -> (total <= step (ss w))%nat ->
  let w' := handle_all U XL COMPANY_NAME COMPANY_BLURB (map Run l) w in
  step (ss w') = step (ss w) /\ lead (ss w') = lead (ss w) /\
  saved w' = saved w /\ disk w' = disk w.
Proof.
  revert w; induction l as [|i l IH]; intros w C Hge; cbv zeta; [auto|].
  cbn [map handle_all fold_left handle].
  destruct (run_complete U XL COMPANY_NAME COMPANY_BLURB i w C Hge)
    as (Hs & Hl & Hsv & Hd & _). cbv zeta in *.
  pose proof (coherent_run U XL COMPANY_NAME COMPANY_BLURB i w C) as C'.
  destruct (IH _ C') as (Hs' & Hl' & Hsv' & Hd'); [rewrite Hs; exact Hge|].
  cbv zeta in *. unfold handle_all in *.
  rewrite Hs', Hl', Hsv', Hd', Hs, Hl, Hsv, Hd. auto.
Qed.

(** X20.  A completed lead can be lost.  When the last answer is accepted
    and the completed record holds a text the spreadsheet engine cannot
    write, [salvar_lead] raises out of the script after the step has reached
    the number of fields: the acknowledgement is the last thing shown, the
    closing message is not, and since the funnel now counts as complete no
    later execution of the session calls [salvar_lead] again.  The log keeps
    the one failed call and the file stays as that call left it. *)
Theorem lead_lost_when_save_raises
        (w : world) (raw : str) (now now' : Z) (v : str) (later : list inputs) :
  coherent w ->
  nth_error KEYS (step (ss w)) = Some "urgencia" ->
  validar_urgencia U (escape_dollar raw) = true ->
  normalizar_campo U "urgencia" (escape_dollar raw) = Ret v ->
  writable XL (frame_of_record (Dict.set (lead (ss w)) "urgencia" v)) = false ->
  let r := process U XL raw now now' w in
  let w' := handle_all U XL COMPANY_NAME COMPANY_BLURB (map Run later) (snd r) in
  fst r = Raise IllegalCharacterError /\
  step (ss (snd r)) = total /\
  lead (ss (snd r)) = Dict.set (lead (ss w)) "urgencia" v /\
  messages (ss (snd r))
  = messages (ss w) ++ [(user, escape_dollar raw); (assistant, entendi)] /\
  saved (snd r) = saved w ++ [lead (ss (snd r))] /\
  disk (snd r) = snd (salvar_lead XL (lead (ss (snd r))) (disk w)) /\
  step (ss w') = total /\ lead (ss w') = lead (ss (snd r)) /\
  saved w' = saved (snd r) /\ disk w' = disk (snd r).
Proof.
  intros C Hk Hv Hn Hw. cbv zeta.
  pose proof (proj2 (last_field _ _ Hk) eq_refl) as H9.
  destruct (process_accepted U XL raw now now' w "urgencia" v Hk Hv Hn)
    as (R & Hne & Hs & Hl & Hsv & Hd). cbv zeta in *.
  rewrite H9 in *. cbn [Nat.eqb] in *. rewrite Hw in R. cbn [negb andb] in R.
  assert (Hm : messages (ss (snd (process U XL raw now now' w)))
               = messages (ss w)
                 ++ [(user, escape_dollar raw); (assistant, entendi)]).
  { destruct (process_tail raw now now' w) as (tail & Hm & Hc).
    cbv zeta in *. rewrite Hm. f_equal. f_equal.
    destruct Hc as [(E & _) | [(E & _) | [(e & _ & _ & Hst) | (_ & -> & _)]]];
      [congruence | congruence | lia | reflexivity]. }
  assert (C' : coherent (snd (process U XL raw now now' w))).
  { destruct C as (Hle & Hkeys & _). unfold coherent.
    rewrite Hs, Hl. split; [lia|]. split.
    - rewrite <- H9. apply keys_advance; [exact Hk | exact Hkeys].
    - intros H0. elim (Hne H0). }
  destruct (complete_stays later _ C') as (Hs' & Hl' & Hsv' & Hd');
    [rewrite Hs; lia|]. cbv zeta in *.
  rewrite Hs', Hl', Hsv', Hd', Hs, Hl, Hsv, Hd.
  repeat (apply conj; [first [reflexivity | assumption]|]). reflexivity.
Qed.

End Conversation.

(** ** The spreadsheet append *)

(** X16.  What [salvar_lead] does, whatever the spreadsheet library does
    with a sheet (failures of the operating system apart).  It returns
    normally exactly when the record alone can be written.  In that case: when there is no file, or the file cannot be
    read, the file becomes a workbook with the record as its only row; when
    the file is read as [antigo], it becomes the joint sheet if that can be
    written, and the record alone if not.  In the joint sheet the columns of
    [antigo] stay in place (new ones go after them), every row of [antigo]
    keeps its cells as they were read, and one more row holds the record.
    The earlier rows are thus kept as [pd.read_excel] gave them back, not as
    they had been written. *)
Theorem salvar_lead_writes (XL : excel) (l : Dict.t str) (f : file) :
  let df := frame_of_record l in
  (fst (salvar_lead XL l f) = Ret tt <-> writable XL df = true) /\
  (writable XL df = true ->
   (read_excel XL f = None -> snd (salvar_lead XL l f) = Workbook df) /\
   (forall antigo,
       read_excel XL f = Some antigo ->
       snd (salvar_lead XL l f)
       = Workbook (if writable XL (concat antigo df) then concat antigo df
                   else df))) /\
  List.length (rows df) = 1%nat /\
  (forall k, frame_cell df 0 k = cell_of (Dict.get l k)) /\
  forall antigo,
    let both := concat antigo df in
    firstn (List.length (columns antigo)) (columns both) = columns antigo /\
    List.length (rows both) = S (List.length (rows antigo)) /\
    (forall i c,
        (i < List.length (rows antigo))%nat -> In c (columns antigo) ->
        frame_cell both i c = frame_cell antigo i c) /\
    (forall k, frame_cell both (List.length (rows antigo)) k
               = cell_of (Dict.get l k)).
Proof.
  cbv zeta. split; [|split; [|split; [|split]]].
  - rewrite salvar_lead_outcome.
    destruct (writable XL (frame_of_record l)); split;
      first [reflexivity | discriminate].
  - intros Hw. unfold salvar_lead, to_excel. rewrite Hw. split.
    + intros ->. destruct (path_exists f); reflexivity.
    + intros antigo Hr. rewrite Hr.
      assert (Hp : path_exists f = true)
        by (destruct f; [discriminate Hr | reflexivity | reflexivity]).
      rewrite Hp.
      destruct (writable XL (concat antigo (frame_of_record l))); reflexivity.
  - reflexivity.
  - intros k. apply row_get_record.
  - intros antigo. split; [apply concat_columns_prefix|].
    split; [rewrite concat_rows_length; simpl; lia|].
    split; [intros i c; apply concat_old_cell | intros k; apply concat_new_row].
Qed.

(** ** The conversation does not look at the spreadsheet *)

Section Locality.

Variable U : unicode_data.
Variable XL : excel.
Variables COMPANY_NAME COMPANY_BLURB : str.

Lemma local_ret {A} (a : A) : ss_local (ret a).
Proof. intros w1 w2 E. auto. Qed.

Lemma local_raise {A} (e : exn) : ss_local (@raise A e).
Proof. intros w1 w2 E. auto. Qed.

Lemma local_stop {A} : ss_local (@stop A).
Proof. intros w1 w2 E. auto. Qed.

Lemma local_lift {A} (r : outcome A) : ss_local (lift r).
Proof. intros w1 w2 E. auto. Qed.

Lemma local_session : ss_local session.
Proof. intros w1 w2 E. unfold session. cbn [fst snd]. rewrite E. auto. Qed.

Lemma local_update (f : session_state -> session_state) : ss_local (update f).
Proof.
  intros w1 w2 E. unfold update, with_ss. cbn [fst snd ss]. rewrite E. auto.
Qed.

Lemma local_sleep (d : Z) : ss_local (sleep d).
Proof. intros w1 w2 E. auto. Qed.

Lemma local_salvar (l : Dict.t str) : ss_local (do_salvar_lead XL l).
Proof.
  intros w1 w2 E. unfold do_salvar_lead. cbn [fst snd persisted ss].
  rewrite !salvar_lead_outcome. auto.
Qed.

Lemma local_bind {A B} (c : M A) (k : A -> M B) :
  ss_local c -> (forall a, ss_local (k a)) -> ss_local (bind c k).
Proof.
  intros Hc Hk w1 w2 E. unfold bind.
  destruct (Hc w1 w2 E) as [Ho Hs].
  destruct (c w1) as [o1 w1'], (c w2) as [o2 w2']. cbn [fst snd] in Ho, Hs.
  subst o2. destruct o1 as [a|e|]; [apply Hk; exact Hs | auto | auto].
Qed.

Lemma local_getitem {V} (d : Dict.t V) (k : string) : ss_local (getitem d k).
Proof.
  unfold getitem. destruct (Dict.get d k); [apply local_ret | apply local_raise].
Qed.

Lemma local_index {V} (l : list V) (n : nat) : ss_local (index l n).
Proof.
  unfold index. destruct (nth_error l n); [apply local_ret | apply local_raise].
Qed.

Ltac local :=
  repeat first
    [ apply local_ret | apply local_raise | apply local_stop | apply local_lift
    | apply local_session | apply local_update | apply local_sleep
    | apply local_salvar | apply local_getitem | apply local_index
    | apply local_bind; [|intros ?]
    | match goal with
      | |- ss_local (if ?b then _ else _) => destruct b
      | |- ss_local (match ?x with Some _ => _ | None => _ end) => destruct x
      | |- ss_local (when ?b _) => unfold when
      | |- ss_local (append_message _ _) => unfold append_message
      end ].

Lemma local_perguntar_proximo_campo : ss_local (perguntar_proximo_campo XL).
Proof. unfold perguntar_proximo_campo. local. Qed.

Lemma local_process (m : str) (now now' : Z) : ss_local (process U XL m now now').
Proof.
  unfold process, rate_limit, funnel. cbv zeta. local;
    apply local_perguntar_proximo_campo.
Qed.

Lemma local_script (typed : option str) (now now' : Z) :
  ss_local (script U XL COMPANY_NAME COMPANY_BLURB typed now now').
Proof.
  unfold script. cbv zeta. local;
    first [apply local_perguntar_proximo_campo | apply local_process].
Qed.

Lemma handle_local (e : event) (w1 w2 : world) :
  ss w1 = ss w2 ->
  ss (handle U XL COMPANY_NAME COMPANY_BLURB e w1)
  = ss (handle U XL COMPANY_NAME COMPANY_BLURB e w2).
Proof.
  intros E. destruct e as [|i]; [reflexivity|].
  unfold handle, run. apply local_script.
  unfold deliver. cbn [ss]. rewrite E. reflexivity.
Qed.

Lemma handle_all_local (es : list event) (w1 w2 : world) :
  ss w1 = ss w2 ->
  ss (handle_all U XL COMPANY_NAME COMPANY_BLURB es w1)
  = ss (handle_all U XL COMPANY_NAME COMPANY_BLURB es w2).
Proof.
  revert w1 w2; induction es as [|e es IH]; intros w1 w2 E; [exact E|].
  apply IH, handle_local, E.
Qed.

(** X17.  What the user sees never depends on the spreadsheet: two worlds
    with the same session state go through any sequence of events with the
    same outcomes and the same session states (transcript, record, step,
    clock), whatever their files hold and whatever was saved before.  The
    closing message says the lead was saved without looking at the file. *)
Theorem conversation_ignores_spreadsheet
        (es : list event) (i : inputs) (w1 w2 : world) :
  ss w1 = ss w2 ->
  let v1 := handle_all U XL COMPANY_NAME COMPANY_BLURB es w1 in
  let v2 := handle_all U XL COMPANY_NAME COMPANY_BLURB es w2 in
  ss v1 = ss v2 /\
  fst (run U XL COMPANY_NAME COMPANY_BLURB i v1)
  = fst (run U XL COMPANY_NAME COMPANY_BLURB i v2).
Proof.
  intros E. cbv zeta.
  pose proof (handle_all_local es w1 w2 E) as H. split; [exact H|].
  unfold run. apply local_script. unfold deliver. cbn [ss]. rewrite H.
  reflexivity.
Qed.

(** X18.  Restart starts over: after it, any sequence of events leads to the
    session state it would lead to in a brand-new session, whatever the
    conversation was before. *)
Theorem restart_starts_over (es : list event) (w : world) (d : file) :
  ss (handle_all U XL COMPANY_NAME COMPANY_BLURB (Restart :: es) w)
  = ss (handle_all U XL COMPANY_NAME COMPANY_BLURB es (fresh_world d)).
Proof.
  exact (handle_all_local es (clear_conversation w) (fresh_world d) eq_refl).
Qed.

End Locality.

(** ** The dollar escape and the validators *)

Lemma split_from_escape (s tok tok' : str) :
  (tok = [] <-> tok' = []) ->
  List.length (split_from (escape_dollar s) tok')
  = List.length (split_from s tok).
Proof.
  revert tok tok'; induction s as [|c s IH]; intros tok tok' H.
  - destruct tok as [|x tok], tok' as [|x' tok']; try reflexivity;
      exfalso; destruct H as [H1 H2];
      [specialize (H1 eq_refl) | specialize (H2 eq_refl)]; discriminate.
  - unfold escape_dollar, replace_char. cbn [flat_map].
    fold (replace_char 36 [92; 36] s). fold (escape_dollar s).
    destruct (Z.eqb_spec c 36) as [-> | Hc].
    + cbn [app split_from]. change (isspace 92) with false.
      change (isspace 36) with false. cbv iota.
      apply IH. split; discriminate.
    + cbn [app split_from]. destruct (isspace c).
      * destruct tok as [|x tok], tok' as [|x' tok'].
        -- apply IH. tauto.
        -- exfalso. destruct H as [H1 _]. specialize (H1 eq_refl). discriminate.
        -- exfalso. destruct H as [_ H2]. specialize (H2 eq_refl). discriminate.
        -- cbn [List.length]. f_equal. apply IH. tauto.
      * apply IH. split; discriminate.
Qed.

Lemma escape_app (a b : str) :
  escape_dollar (a ++ b) = escape_dollar a ++ escape_dollar b.
Proof. unfold escape_dollar, replace_char. apply flat_map_app. Qed.

Lemma escape_email_chars (s : str) :
  forallb email_char (escape_dollar s) = forallb email_char s.
Proof.
  induction s as [|c s IH]; [reflexivity|].
  unfold escape_dollar, replace_char in *. cbn [flat_map].
  destruct (Z.eqb_spec c 36) as [-> | _]; simpl; rewrite IH; reflexivity.
Qed.

Lemma escape_nil (s : str) : escape_dollar s = [] -> s = [].
Proof.
  destruct s as [|c s]; [reflexivity|].
  unfold escape_dollar, replace_char. cbn [flat_map].
  destruct (c =? 36); discriminate.
Qed.

(** A character other than the dollar sign and the backslash occurs in the
    escaped text only where it occurs in the original. *)
Lemma escape_split (x : char) (m a b : str) :
  x <> 36 -> x <> 92 ->
  escape_dollar m = a ++ x :: b ->
  exists a0 b0, m = a0 ++ x :: b0 /\ escape_dollar a0 = a /\ escape_dollar b0 = b.
Proof.
  intros H36 H92. revert a; induction m as [|c m IH]; intros a E.
  - destruct a; discriminate.
  - unfold escape_dollar, replace_char in E. cbn [flat_map] in E.
    fold (replace_char 36 [92; 36] m) in E. fold (escape_dollar m) in E.
    destruct (Z.eqb_spec c 36) as [-> | Hc].
    + destruct a as [|y [|z a]]; simpl in E.
      * injection E as E _. congruence.
      * injection E as _ E _. congruence.
      * injection E as <- <- E. destruct (IH a E) as (a0 & b0 & -> & <- & <-).
        exists (36 :: a0), b0. auto.
    + destruct a as [|y a]; simpl in E.
      * injection E as -> <-. exists [], m. auto.
      * injection E as <- E. destruct (IH a E) as (a0 & b0 & -> & <- & <-).
        exists (c :: a0), b0. split; [reflexivity|]. split; [|reflexivity].
        unfold escape_dollar, replace_char. cbn [flat_map].
        destruct (Z.eqb_spec c 36); [contradiction | reflexivity].
Qed.

Lemma escape_length (s : str) :
  List.length (escape_dollar s)
  = (List.length s + List.length (filter (fun c => (c =? 36)%Z) s))%nat.
Proof.
  induction s as [|c s IH]; [reflexivity|].
  unfold escape_dollar, replace_char in *. cbn [flat_map filter].
  rewrite length_app, IH. destruct (c =? 36); simpl; lia.
Qed.

Lemma escape_no_dollar (s : str) :
  escape_dollar s = s <-> existsb (fun c => c =? 36) s = false.
Proof.
  split.
  - intros H. pose proof (escape_length s) as Hl. rewrite H in Hl.
    assert (Hf : filter (fun c => c =? 36) s = [])
      by (destruct (filter (fun c => c =? 36) s);
          [reflexivity | simpl in Hl; lia]).
    clear H Hl. induction s as [|c s IH]; [reflexivity|].
    simpl in *. destruct (c =? 36); [discriminate | exact (IH Hf)].
  - induction s as [|c s IH]; [reflexivity|].
    unfold escape_dollar, replace_char in *. cbn [flat_map existsb].
    destruct (c =? 36); [discriminate|]. simpl. intros H. rewrite (IH H).
    reflexivity.
Qed.

Lemma escape_filter (p : char -> bool) (s : str) :
  p 36 = false -> p 92 = false ->
  filter p (escape_dollar s) = filter p s.
Proof.
  intros H36 H92. induction s as [|c s IH]; [reflexivity|].
  unfold escape_dollar, replace_char in *. cbn [flat_map].
  destruct (Z.eqb_spec c 36) as [-> | _]; simpl; rewrite ?H36, ?H92, IH;
    reflexivity.
Qed.

Lemma escape_forallb (p : char -> bool) (s : str) :
  p 36 = true -> p 92 = true ->
  forallb p (escape_dollar s) = forallb p s.
Proof.
  intros H36 H92. induction s as [|c s IH]; [reflexivity|].
  unfold escape_dollar, replace_char in *. cbn [flat_map].
  destruct (Z.eqb_spec c 36) as [-> | _]; simpl; rewrite ?H36, ?H92, IH;
    reflexivity.
Qed.

Section Escaped.

Variable U : unicode_data.
Variable XL : excel.

(** X3.  What the record receives for an e-mail address.  The validator and
    the normaliser see the typed text with a backslash put before each
    dollar sign (line 235).  When the validator accepts it, that text goes
    into the record without trimming or any other change: the record holds
    the address exactly as typed when it has no dollar sign, and with the
    added backslashes when it has one.  The typed address has no whitespace
    and exactly one at sign. *)
Theorem email_stored_escaped (typed : str) (now now' : Z) (w : world) :
  nth_error (Dict.keys PERGUNTAS) (step (ss w)) = Some "email" ->
  validar_email (escape_dollar typed) = true ->
  let r := process U XL typed now now' w in
  fst r = Ret tt /\
  Dict.get (lead (ss (snd r))) "email" = Some (escape_dollar typed) /\
  (escape_dollar typed = typed
   <-> existsb (fun c => c =? 36) typed = false) /\
  forallb (fun c => negb (isspace c)) typed = true /\
  List.length (filter (fun c => c =? 64) typed) = 1%nat.
Proof.
  intros Hk Hv. cbv zeta.
  destruct (email_normalised U _ Hv) as (Hn & Hns & Hat).
  destruct (process_accepted U XL typed now now' w "email" (escape_dollar typed)
              Hk Hv Hn) as (R & _ & _ & Hl & _). cbv zeta in *.
  assert (H9 : (S (step (ss w)) =? 9)%nat = false).
  { apply Nat.eqb_neq. intros H9.
    apply (last_field _ _ Hk) in H9. discriminate. }
  rewrite H9 in R. split; [exact R|].
  split; [rewrite Hl; apply dict_get_set|].
  split; [apply escape_no_dollar|].
  rewrite escape_forallb in Hns by reflexivity.
  rewrite escape_filter in Hat by reflexivity. auto.
Qed.

End Escaped.

(** X19.  The backslashes that line 235 puts before dollar signs never
    change the verdict on a name or on an e-mail address: the escaped
    message is accepted exactly when the message as typed would be. *)
Theorem escape_keeps_name_and_email_verdicts (m : str) :
  validar_nome (escape_dollar m) = validar_nome m /\
  validar_email (escape_dollar m) = validar_email m.
Proof.
  split.
  - unfold validar_nome, split. rewrite (split_from_escape m [] []); tauto.
  - apply eq_true_iff_eq. unfold validar_email. rewrite !fullmatch_matches.
    change re_not_at_space with (Class email_char).
    rewrite !email_regex_parts. split.
    + intros (l & d & t & E & Hl & Hd & Ht & Fl & Fd & Ft).
      destruct (escape_split 64 m l (d ++ 46 :: t)) as (l0 & r0 & -> & <- & Er);
        [lia | lia | exact E |].
      destruct (escape_split 46 r0 d t) as (d0 & t0 & -> & <- & <-);
        [lia | lia | exact Er |].
      rewrite escape_email_chars in Fl, Fd, Ft.
      exists l0, d0, t0. repeat split; try assumption.
      * intros ->. apply Hl. reflexivity.
      * intros ->. apply Hd. reflexivity.
      * intros ->. apply Ht. reflexivity.
    + intros (l & d & t & -> & Hl & Hd & Ht & Fl & Fd & Ft).
      exists (escape_dollar l), (escape_dollar d), (escape_dollar t).
      rewrite !escape_email_chars.
      repeat split; try assumption.
      * rewrite escape_app.
        change (64 :: d ++ 46 :: t) with ([64] ++ d ++ [46] ++ t).
        rewrite !escape_app. reflexivity.
      * intros E. apply Hl, escape_nil, E.
      * intros E. apply Hd, escape_nil, E.
      * intros E. apply Ht, escape_nil, E.
Qed.

(** ** Instances of the further properties *)

Lemma email_stored_escaped_witness :
  let w := handle_all latin1 xlsx [] []
             (conversation steady_clock [u "Ana Silva"; u "11987654321"])
             (fresh_world Missing) in
  let r := process latin1 xlsx (u "a$b@c.d") (fst (steady_clock 2))
             (snd (steady_clock 2)) w in
  nth_error (Dict.keys PERGUNTAS) (step (ss w)) = Some "email" /\
  validar_email (escape_dollar (u "a$b@c.d")) = true /\
  fst r = Ret tt /\
  Dict.get (lead (ss (snd r))) "email" = Some (u "a\$b@c.d").
Proof.
  cbv zeta. split; [reflexivity|]. split; [reflexivity|].
  destruct (email_stored_escaped latin1 xlsx (u "a$b@c.d")
              (fst (steady_clock 2)) (snd (steady_clock 2))
              (handle_all latin1 xlsx [] []
                 (conversation steady_clock [u "Ana Silva"; u "11987654321"])
                 (fresh_world Missing)) eq_refl eq_refl) as (H1 & H2 & _).
  split; [exact H1 | exact H2].
Defined.

Lemma urgencia_stored_canonical_witness :
  validar_urgencia latin1 (u " Média ") = true /\
  exists y,
    normalizar_campo latin1 "urgencia" (u " Média ") = Ret y /\
    In y [u "alta"; u "media"; u "baixa"].
Proof.
  split; [reflexivity|].
  destruct (urgencia_stored_canonical latin1 (u " Média ") eq_refl)
    as (y & H1 & H2 & _).
  exists y. split; assumption.
Defined.

Lemma ascii_number_stored_without_leading_zeros_witness :
  unicode_ok latin1 /\
  truthy (strip (u " 0080 ")) = true /\
  forallb is_ascii_digit (strip (u " 0080 ")) = true /\
  valido latin1 "metragem" (u " 0080 ") = true /\
  exists d,
    strip (u " 0080 ") = chars_of_uint d /\
    normalizar_campo latin1 "metragem" (u " 0080 ")
    = Ret (chars_of_uint (unorm d)).
Proof.
  split; [exact latin1_ok|]. split; [reflexivity|]. split; [reflexivity|].
  destruct (ascii_number_stored_without_leading_zeros latin1 "metragem"
              (u " 0080 ") latin1_ok (or_introl eq_refl) eq_refl eq_refl)
    as (Hv & d & Hd & Hn).
  split; [exact Hv|]. exists d. split; [exact Hd | exact Hn].
Defined.

Lemma process_depends_on_funnel_view_witness :
  let w1 := fresh_world Missing in
  let w2 := snd (process latin1 xlsx (u "Ana") 5000000 5000100 (fresh_world Missing)) in
  let v1 := snd (process latin1 xlsx (u "Ana Silva") 1 2 w1) in
  let v2 := snd (process latin1 xlsx (u "Ana Silva") 7000000 7000100 w2) in
  funnel_view w1 = funnel_view w2 /\
  funnel_view v1 = funnel_view v2.
Proof.
  cbv zeta. split; [reflexivity|].
  destruct (process_depends_on_funnel_view latin1 xlsx
              [(u "Ana Silva", (1, 2), (7000000, 7000100))]
              (fresh_world Missing)
              (snd (process latin1 xlsx (u "Ana") 5000000 5000100
                      (fresh_world Missing)))
              eq_refl) as [H _].
  exact H.
Defined.

Lemma retry_after_rejection_witness :
  let w := fresh_world Missing in
  nth_error (Dict.keys PERGUNTAS) (step (ss w)) = Some "nome" /\
  valido latin1 "nome" (escape_dollar (u "123")) = false /\
  let w1 := snd (process latin1 xlsx (u "123") 5000000 5000100 w) in
  fst (process latin1 xlsx (u "Ana Silva") 7000000 7000100 w1)
  = fst (process latin1 xlsx (u "Ana Silva") 7000000 7000100 w) /\
  funnel_view (snd (process latin1 xlsx (u "Ana Silva") 7000000 7000100 w1))
  = funnel_view (snd (process latin1 xlsx (u "Ana Silva") 7000000 7000100 w)).
Proof.
  cbv zeta. split; [reflexivity|]. split; [reflexivity|].
  apply (retry_after_rejection latin1 xlsx (u "123") (u "Ana Silva")
           5000000 5000100 7000000 7000100 (fresh_world Missing) "nome");
    reflexivity.
Defined.

Lemma message_choice_witness :
  let w := fresh_world Missing in
  let i := {| in_initial_question := Some (u "Ana Silva");
              in_selected_suggestion := None; in_typed := None;
              in_now := 5000000; in_now' := 5000100 |} in
  (messages (ss w) = [] -> step (ss w) = 0%nat) /\
  run latin1 xlsx [] [] i w
  = process latin1 xlsx (u "Ana Silva") 5000000 5000100 (entered [] [] i w).
Proof.
  cbv zeta. split; [intros _; reflexivity|].
  destruct (message_choice latin1 xlsx [] []
              {| in_initial_question := Some (u "Ana Silva");
                 in_selected_suggestion := None; in_typed := None;
                 in_now := 5000000; in_now' := 5000100 |}
              (fresh_world Missing) (fun _ => eq_refl))
    as (_ & _ & _ & H & _).
  exact (H eq_refl eq_refl (u "Ana Silva") eq_refl eq_refl).
Defined.

Lemma suggestion_becomes_name_witness :
  let k := ":blue[:material/key:] Quero alugar" in
  let i := {| in_initial_question := None; in_selected_suggestion := Some k;
              in_typed := None; in_now := 5000000; in_now' := 5000100 |} in
  ss (fresh_world Missing) = fresh_session /\
  Dict.get SUGGESTIONS k = Some (u "Quero alugar um imóvel.") /\
  lead (ss (snd (run latin1 xlsx [] [] i (fresh_world Missing))))
  = [("nome", u "Quero alugar um imóvel.")].
Proof.
  cbv zeta. split; [reflexivity|]. split; [reflexivity|].
  destruct (suggestion_becomes_name latin1 xlsx [] [] (fresh_world Missing)
              ":blue[:material/key:] Quero alugar"
              (u "Quero alugar um imóvel.") None 5000000 5000100
              eq_refl eq_refl) as (_ & _ & H & _).
  exact H.
Defined.

Lemma conversation_ignores_spreadsheet_witness :
  let w1 := fresh_world Missing in
  let w2 := fresh_world Unreadable in
  ss w1 = ss w2 /\
  ss (handle_all latin1 xlsx [] [] (map Run ana_inputs) w1)
  = ss (handle_all latin1 xlsx [] [] (map Run ana_inputs) w2).
Proof.
  cbv zeta. split; [reflexivity|].
  destruct (conversation_ignores_spreadsheet latin1 xlsx [] [] (map Run ana_inputs)
              {| in_initial_question := None; in_selected_suggestion := None;
                 in_typed := None; in_now := 0; in_now' := 0 |}
              (fresh_world Missing) (fresh_world Unreadable) eq_refl)
    as [H _].
  exact H.
Defined.

Lemma lead_lost_when_save_raises_witness :
  let w := handle_all latin1 xlsx [] []
             (conversation steady_clock (firstn 8 tab_answers))
             (fresh_world Missing) in
  let r := process latin1 xlsx (u "alta") (fst (steady_clock 8))
             (snd (steady_clock 8)) w in
  let w' := handle_all latin1 xlsx [] []
              (map Run (skipn 9 ana_inputs)) (snd r) in
  validar_nome tab_name = true /\
  coherent w /\
  nth_error (Dict.keys PERGUNTAS) (step (ss w)) = Some "urgencia" /\
  validar_urgencia latin1 (escape_dollar (u "alta")) = true /\
  normalizar_campo latin1 "urgencia" (escape_dollar (u "alta")) = Ret (u "alta") /\
  writable xlsx (frame_of_record (Dict.set (lead (ss w)) "urgencia" (u "alta")))
  = false /\
  fst r = Raise IllegalCharacterError /\
  step (ss w') = 9%nat /\
  lead (ss w') = tab_record /\
  saved w' = [tab_record].
Proof.
  cbv zeta.
  assert (C : coherent (handle_all latin1 xlsx [] []
                          (conversation steady_clock (firstn 8 tab_answers))
                          (fresh_world Missing)))
    by (apply coherent_handle_all, coherent_fresh; reflexivity).
  split; [reflexivity|]. split; [exact C|].
  split; [reflexivity|]. split; [reflexivity|]. split; [reflexivity|].
  split; [reflexivity|].
  destruct (lead_lost_when_save_raises latin1 xlsx [] []
              (handle_all latin1 xlsx [] []
                 (conversation steady_clock (firstn 8 tab_answers))
                 (fresh_world Missing))
              (u "alta") (fst (steady_clock 8)) (snd (steady_clock 8))
              (u "alta") (skipn 9 ana_inputs) C eq_refl eq_refl eq_refl eq_refl)
    as (H1 & _ & H3 & _ & H5 & _ & H7 & H8 & H9 & _).
  split; [exact H1|]. split; [exact H7|].
  split; [rewrite H8, H3; reflexivity|].
  rewrite H9, H5, H3. reflexivity.
Defined.
